(** * slicetricks: generic slice primitives, embedded over an explicit heap

    The Go package manipulates slices through their headers (backing array,
    offset, length, capacity) and through the arrays those headers point to.
    Both are modelled here: a heap of arrays, slice headers that index it,
    and the built-ins ([len], slice expressions, indexing, [copy], [append],
    [make]) as computations that may panic.  Every exported function of
    [slicetricks.go] that the properties below speak about is then written
    with these built-ins, statement by statement. *)

From Stdlib Require Import ZArith Lia Bool.
From stdpp Require Import base option list sorting.

Open Scope Z_scope.

(** ** Machine integers

    Go's [int] is 64 bits wide on 64-bit platforms, the width fixed here;
    arithmetic wraps around silently. *)

Module Int.

Definition min_int : Z := - 2 ^ 63.
Definition max_int : Z := 2 ^ 63 - 1.

Definition wrap (z : Z) : Z := (z + 2 ^ 63) mod 2 ^ 64 - 2 ^ 63.

Definition add (x y : Z) : Z := wrap (x + y).
Definition sub (x y : Z) : Z := wrap (x - y).

(** [x / y] truncates toward zero; division by zero is a run-time panic
    and is handled by the caller of [quot]. *)
Definition quot (x y : Z) : Z := wrap (Z.quot x y).

Definition in_range (z : Z) : Prop := min_int <= z <= max_int.

End Int.

(** ** Outcomes and the heap monad *)

Inductive outcome (A : Type) : Type :=
  | Ok (a : A)
  | Panic
  | Diverge.
Arguments Ok {A} a.
Arguments Panic {A}.
Arguments Diverge {A}.

(** A slice header: which array, where the slice starts in it, its length
    and its capacity. *)
Record slice : Type := Slice {
  s_arr : nat;
  s_off : nat;
  s_len : nat;
  s_cap : nat
}.

(** The heap: every array ever allocated, addressed by position. *)
Abbreviation heap T := (list (list T)).

Definition len (s : slice) : Z := Z.of_nat (s_len s).
Definition cap (s : slice) : Z := Z.of_nat (s_cap s).

Section Model.

Context {T : Type}.

(** The zero value of the element type ([var zero T]). *)
Variable zero : T.

(** When [append] has to reallocate, the runtime picks a capacity at
    least as large as the new length; [spare old need] is the slack it
    adds on top of [need].  Nothing below depends on its value. *)
Variable spare : nat -> nat -> nat.

Definition M (A : Type) : Type := heap T -> outcome (A * heap T).

Definition ret {A} (a : A) : M A := fun h => Ok (a, h).

Definition bind {A B} (m : M A) (k : A -> M B) : M B :=
  fun h =>
    match m h with
    | Ok (a, h') => k a h'
    | Panic => Panic
    | Diverge => Diverge
    end.

Definition panic {A} : M A := fun _ => Panic.
Definition diverge {A} : M A := fun _ => Diverge.

(** *** What a header denotes *)

Definition array (h : heap T) (s : slice) : list T :=
  default [] (h !! s_arr s).

(** The live elements [s[0], ..., s[len(s)-1]]. *)
Definition view (h : heap T) (s : slice) : list T :=
  take (s_len s) (drop (s_off s) (array h s)).

(** A header lies inside an array of the heap. *)
Definition in_bounds (h : heap T) (s : slice) : Prop :=
  (s_arr s < length h)%nat /\
  (s_len s <= s_cap s)%nat /\
  (s_off s + s_cap s <= length (array h s))%nat.

(** A header is well formed in a heap when it lies inside its array and
    the array is one the runtime can hand out: an array of elements of
    non-zero size never reaches [max_int] elements. *)
Definition wf (h : heap T) (s : slice) : Prop :=
  (s_arr s < length h)%nat /\
  (s_len s <= s_cap s)%nat /\
  (s_off s + s_cap s <= length (array h s))%nat /\
  Z.of_nat (length (array h s)) < Int.max_int.

(** *** Built-ins *)

(** Overwrite the slots of [s] from position 0 on with [vs]. *)
Definition put (s : slice) (vs : list T) (h : heap T) : heap T :=
  alter (list_inserts (s_off s) vs) (s_arr s) h.

(** [s[lo:hi]] *)
Definition reslice (s : slice) (lo hi : Z) : M slice :=
  if (0 <=? lo) && (lo <=? hi) && (hi <=? cap s)
  then ret (Slice (s_arr s) (s_off s + Z.to_nat lo)
                  (Z.to_nat (hi - lo)) (s_cap s - Z.to_nat lo))
  else panic.

(** [s[lo:]] *)
Definition slice_from (s : slice) (lo : Z) : M slice :=
  reslice s lo (len s).

(** [s[:hi]] *)
Definition slice_to (s : slice) (hi : Z) : M slice :=
  reslice s 0 hi.

(** [s[lo:hi:max]] *)
Definition reslice3 (s : slice) (lo hi mx : Z) : M slice :=
  if (0 <=? lo) && (lo <=? hi) && (hi <=? mx) && (mx <=? cap s)
  then ret (Slice (s_arr s) (s_off s + Z.to_nat lo)
                  (Z.to_nat (hi - lo)) (Z.to_nat (mx - lo)))
  else panic.

(** [s[i]] as a value *)
Definition index (s : slice) (i : Z) : M T :=
  fun h =>
    if (0 <=? i) && (i <? len s)
    then match array h s !! (s_off s + Z.to_nat i)%nat with
         | Some x => Ok (x, h)
         | None => Panic
         end
    else Panic.

(** [s[i] = x] *)
Definition assign (s : slice) (i : Z) (x : T) : M unit :=
  fun h =>
    if (0 <=? i) && (i <? len s)
    then Ok (tt, alter (<[(s_off s + Z.to_nat i)%nat := x]>) (s_arr s) h)
    else Panic.

(** [copy(dst, src)]: the source is read in full before the destination
    is written, which is what the built-in guarantees for overlapping
    arguments. *)
Definition copy (dst src : slice) : M Z :=
  fun h =>
    let n := Nat.min (s_len dst) (s_len src) in
    Ok (Z.of_nat n, put dst (take n (view h src)) h).

(** [make([]T, n)] *)
Definition make (n : Z) : M slice :=
  fun h =>
    if (0 <=? n) && (n <=? Int.max_int)
    then Ok (Slice (length h) 0 (Z.to_nat n) (Z.to_nat n),
             h ++ [replicate (Z.to_nat n) zero])
    else Panic.

(** [append(s, v1, ..., vk)] for values already evaluated.  Within
    capacity the new elements are written behind the live ones, in the
    same array; otherwise a new array is allocated.  A length beyond
    [max_int] is the runtime's "len out of range" panic. *)
Definition append (s : slice) (vs : list T) : M slice :=
  fun h =>
    let n := (s_len s + length vs)%nat in
    if Z.of_nat n >? Int.max_int then Panic
    else if (n <=? s_cap s)%nat
    then Ok (Slice (s_arr s) (s_off s) n (s_cap s),
             put (Slice (s_arr s) (s_off s + s_len s) (length vs)
                        (s_cap s - s_len s)) vs h)
    else let extra := spare (s_cap s) n in
         Ok (Slice (length h) 0 n (n + extra),
             h ++ [view h s ++ vs ++ replicate extra zero]).

(** [append(s, t...)] *)
Definition append_slice (s t : slice) : M slice :=
  fun h => append s (view h t) h.

End Model.

Arguments M : clear implicits.

Notation "x <- m ;; k" := (bind m (fun x => k))
  (at level 20, m at level 99, k at level 200, only parsing).
Notation "' p <- m ;; k" := (bind m (fun p => k))
  (at level 20, p pattern, m at level 99, k at level 200, only parsing).
Notation "m ;;; k" := (bind m (fun _ => k))
  (at level 100, k at level 200, only parsing, right associativity).

(** ** Loops *)

Section Loops.

Context {T St : Type}.

(** [for i, x := range s { body }]: the range expression is evaluated
    once, so the trip count is the length the slice had on entry; each
    element is read when its iteration starts. *)
Fixpoint range_from (s : slice) (i n : nat)
    (body : Z -> T -> St -> M T St) (st : St) : M T St :=
  match n with
  | O => ret st
  | S n' =>
      x <- index s (Z.of_nat i) ;;
      st' <- body (Z.of_nat i) x st ;;
      range_from s (S i) n' body st'
  end.

Definition range (s : slice) (body : Z -> T -> St -> M T St) (st : St)
    : M T St :=
  range_from s 0 (s_len s) body st.

(** [for k := lo; k < hi; k++ { body }] where neither [k] nor [hi] is
    assigned in the body: the loop runs [hi - lo] times ([k < hi] keeps
    the increment from wrapping). *)
Fixpoint for_upto (n : nat) (k : Z) (body : Z -> St -> M T St) (st : St)
    : M T St :=
  match n with
  | O => ret st
  | S n' => st' <- body k st ;; for_upto n' (k + 1) body st'
  end.

Definition for_lt (lo hi : Z) (body : Z -> St -> M T St) (st : St)
    : M T St :=
  for_upto (Z.to_nat (hi - lo)) lo body st.

(** [for cond { body }] with an explicit bound on the number of
    iterations; running out of it is reported as [Diverge]. *)
Fixpoint while (fuel : nat) (cond : St -> bool) (body : St -> M T St)
    (st : St) : M T St :=
  if cond st then
    match fuel with
    | O => diverge
    | S fuel' => st' <- body st ;; while fuel' cond body st'
    end
  else ret st.

End Loops.

Section ReturningLoops.

Context {T R : Type}.

(** [for i, x := range s { body }] where the body may [return] from the
    enclosing function: the loop stops at the first iteration that does,
    with the value returned; [None] says it ran to its end. *)
Fixpoint range_return_from (s : slice) (i n : nat)
    (body : Z -> T -> M T (option R)) : M T (option R) :=
  match n with
  | O => ret None
  | S n' =>
      x <- index s (Z.of_nat i) ;;
      r <- body (Z.of_nat i) x ;;
      match r with
      | Some v => ret (Some v)
      | None => range_return_from s (S i) n' body
      end
  end.

Definition range_return (s : slice) (body : Z -> T -> M T (option R))
    : M T (option R) :=
  range_return_from s 0 (s_len s) body.

End ReturningLoops.

(** ** The functions of [slicetricks.go]

    A function that takes [a *[]T] receives the header [*a] and returns
    the header it leaves in [*a]. *)

Section Functions.

Context {T : Type}.
Variable zero : T.
Variable spare : nat -> nat -> nat.

#[local] Abbreviation make := (make zero).
#[local] Abbreviation append := (append zero spare).
#[local] Abbreviation append_slice := (append_slice zero spare).

(** A composite literal [[]T{v1, ..., vk}]. *)
Definition literal (vs : list T) : M T slice :=
  fun h => Ok (Slice (length h) 0 (length vs) (length vs), h ++ [vs]).

(** [make([][]T, n, c)]: only the bounds check is kept, the slice of
    headers itself is a list. *)
Definition make_headers (n c : Z) : M T (list slice) :=
  if (0 <=? n) && (n <=? c)
  then ret (replicate (Z.to_nat n) (Slice 0 0 0 0))
  else panic.

Definition Copy (a : slice) : M T slice :=
  b <- make (len a) ;;
  copy b a ;;;
  ret b.

Definition Cut (a : slice) (start end_ : Z) : M T slice :=
  dst <- slice_from a start ;;
  src <- slice_from a end_ ;;
  copy dst src ;;;
  for_lt (Int.add (Int.sub (len a) end_) start) (len a)
    (fun k _ => assign a k zero) tt ;;;
  slice_to a (Int.add (Int.sub (len a) end_) start).

Definition Delete (a : slice) (i : Z) : M T slice :=
  dst <- slice_from a i ;;
  src <- slice_from a (Int.add i 1) ;;
  copy dst src ;;;
  assign a (Int.sub (len a) 1) zero ;;;
  slice_to a (Int.sub (len a) 1).

Definition DeleteUnordered (a : slice) (i : Z) : M T slice :=
  x <- index a (Int.sub (len a) 1) ;;
  assign a i x ;;;
  assign a (Int.sub (len a) 1) zero ;;;
  slice_to a (Int.sub (len a) 1).

Definition Expand (a : slice) (i n : Z) : M T slice :=
  pre <- slice_to a i ;;
  z <- make n ;;
  tl <- slice_from a i ;;
  t <- append_slice z tl ;;
  append_slice pre t.

Definition Extend (a : slice) (n : Z) : M T slice :=
  z <- make n ;;
  append_slice a z.

Definition Insert (a : slice) (i : Z) (elem : T) : M T slice :=
  a <- append a [zero] ;;
  dst <- slice_from a (Int.add i 1) ;;
  src <- slice_from a i ;;
  copy dst src ;;;
  assign a i elem ;;;
  ret a.

Definition InsertMany (a : slice) (i : Z) (elems : slice) : M T slice :=
  let n := Int.add (len a) (len elems) in
  if n <=? cap a then
    a <- slice_to a n ;;
    dst <- slice_from a (Int.add i (len elems)) ;;
    src <- reslice a i (Int.add (Int.add i (len elems)) 1) ;;
    copy dst src ;;;
    dst <- slice_from a i ;;
    copy dst elems ;;;
    ret a
  else
    s2 <- make (Int.add (len a) (len elems)) ;;
    src <- slice_to a i ;;
    copy s2 src ;;;
    dst <- slice_from s2 i ;;
    copy dst elems ;;;
    dst <- slice_from s2 (Int.add i (len elems)) ;;
    src <- slice_from a i ;;
    copy dst src ;;;
    ret s2.

Definition Push (a : slice) (elem : T) : M T slice :=
  append a [elem].

Definition PushFront (a : slice) (elem : T) : M T slice :=
  e <- literal [elem] ;;
  append_slice e a.

Definition Pop (a : slice) : M T (T * slice) :=
  x <- index a (Int.sub (len a) 1) ;;
  a' <- slice_to a (Int.sub (len a) 1) ;;
  ret (x, a').

Definition PopFront (a : slice) : M T (T * slice) :=
  x <- index a 0 ;;
  a' <- slice_from a 1 ;;
  ret (x, a').

(** The batches share the array of [a]; the result is the list of their
    headers.  The capacity hint of [make] is evaluated as written, with
    the panics integer division and [make] can raise. *)
Definition Batches (fuel : nat) (a : slice) (batchSize : Z)
    : M T (list slice) :=
  if len a =? 0 then ret []
  else
    batches <-
      (if batchSize =? 0 then panic
       else make_headers 0
              (Int.quot (Int.sub (Int.add (len a) batchSize) 1) batchSize)) ;;
    ' (a, batches) <-
      while fuel
        (fun '(a, _) => batchSize <? len a)
        (fun '(a, batches) =>
           a' <- slice_from a batchSize ;;
           b <- reslice3 a 0 batchSize batchSize ;;
           ret (a', batches ++ [b]))
        (a, batches) ;;
    ret (batches ++ [a]).

Definition FilterZeroAllocNoGC (a : slice) (keep : T -> bool) : M T slice :=
  b <- slice_to a 0 ;;
  range a (fun _ x b => if keep x then append b [x] else ret b) b.

Definition FilterZeroAlloc (a : slice) (keep : T -> bool) : M T slice :=
  b <- slice_to a 0 ;;
  b <- range a (fun _ x b => if keep x then append b [x] else ret b) b ;;
  for_lt (len b) (len a) (fun i _ => assign a i zero) tt ;;;
  ret b.

Definition Reverse (a : slice) : M T unit :=
  let n := Int.sub (Int.quot (len a) 2) 1 in
  for_upto (Z.to_nat (n + 1)) 0
    (fun k _ =>
       let i := n - k in
       let opp := Int.sub (Int.sub (len a) 1) i in
       x <- index a opp ;;
       y <- index a i ;;
       assign a i x ;;;
       assign a opp y) tt.

Definition SlidingWindow (fuel : nat) (a : slice) (size : Z)
    : M T (list slice) :=
  if len a =? 0 then ret []
  else if len a <=? size then ret [a]
  else
    r <- make_headers 0 (Int.add (Int.sub (len a) size) 1) ;;
    ' (_, _, r) <-
      while fuel
        (fun '(_, j, _) => j <=? len a)
        (fun '(i, j, r) =>
           w <- reslice a i j ;;
           ret (Int.add i 1, Int.add j 1, r ++ [w]))
        (0, size, r) ;;
    ret r.

End Functions.

(** *** Sorting and deduplication *)

Section Sorting.

Context {T : Type} `{EqDecision T}.

(** The current elements of a slice, as a closure over it reads them. *)
Definition contents (a : slice) : M T (list T) :=
  fun h => Ok (view h a, h).

(** [a[i], a[j] = a[j], a[i]] *)
Definition swap (a : slice) (i j : Z) : M T unit :=
  x <- index a j ;;
  y <- index a i ;;
  assign a i x ;;;
  assign a j y.

(** [sort.SliceStable] is Go's standard library, not part of the
    package.  It is modelled by the insertion sort that library runs on
    every block of up to 20 elements (longer inputs are merged from such
    blocks, with the same result): the element at [i] moves toward the
    front while [less(j, j-1)] holds.  The comparator receives indices;
    its first argument here is what the slice holds at the time of the
    call. *)
Fixpoint insert_back (a : slice) (less : list T -> Z -> Z -> bool)
    (j : nat) : M T unit :=
  match j with
  | O => ret tt
  | S j' =>
      v <- contents a ;;
      if less v (Z.of_nat j) (Z.of_nat j')
      then swap a (Z.of_nat j) (Z.of_nat j') ;;; insert_back a less j'
      else ret tt
  end.

Definition SliceStable (a : slice) (less : list T -> Z -> Z -> bool)
    : M T unit :=
  for_lt 1 (len a) (fun i _ => insert_back a less (Z.to_nat i)) tt.

Definition SortAndDeduplicate (a : slice)
    (less : list T -> Z -> Z -> bool) : M T slice :=
  SliceStable a less ;;;
  j <- for_lt 1 (len a)
         (fun i j =>
            x <- index a j ;;
            y <- index a i ;;
            if bool_decide (x = y) then ret j
            else
              let j := Int.add j 1 in
              y <- index a i ;;
              assign a j y ;;;
              ret j) 0 ;;
  slice_to a (Int.add j 1).

End Sorting.

(** *** The two copies of the Filter family

    [slicetricks.go] carries the package twice.  The copies agree on every
    function above; they differ in [Filter]: the first copy (lines 57-66)
    stops after the compaction pass, the second (lines 335-350) also
    clears the vacated slots and adds [FilterNoGC] for the pass alone. *)

Module PartA.
Section Defs.
Context {T : Type}.

Definition Filter (a : slice) (keep : T -> bool) : M T slice :=
  n <- range a
         (fun _ x n =>
            if keep x then assign a n x ;;; ret (Int.add n 1) else ret n)
         0 ;;
  slice_to a n.

End Defs.
End PartA.

Module PartB.
Section Defs.
Context {T : Type}.
Variable zero : T.

Definition Filter (a : slice) (keep : T -> bool) : M T slice :=
  n <- range a
         (fun _ x n =>
            if keep x then assign a n x ;;; ret (Int.add n 1) else ret n)
         0 ;;
  for_lt n (len a) (fun i _ => assign a i zero) tt ;;;
  slice_to a n.

Definition FilterNoGC (a : slice) (keep : T -> bool) : M T slice :=
  n <- range a
         (fun _ x n =>
            if keep x then assign a n x ;;; ret (Int.add n 1) else ret n)
         0 ;;
  slice_to a n.

End Defs.

(** The second copy ends with four queries the first does not have.
    They read the slice and leave the heap as it is. *)

Section Queries.
Context {T : Type}.

Definition All (elems : slice) (f : T -> bool) : M T bool :=
  r <- range_return elems
         (fun _ elem => if negb (f elem) then ret (Some false) else ret None) ;;
  match r with
  | Some b => ret b
  | None => ret true
  end.

Definition Any (elems : slice) (f : T -> bool) : M T bool :=
  r <- range_return elems
         (fun _ elem => if f elem then ret (Some true) else ret None) ;;
  match r with
  | Some b => ret b
  | None => ret false
  end.


(** Declared last: inside this module the name hides the constructor of
    [option]. *)
Definition None (elems : slice) (f : T -> bool) : M T bool :=
  b <- Any elems f ;;
  ret (negb b).

End Queries.
End PartB.

(** *** What sorting and deduplication compute, on lists

    These functions describe results, they are not part of the package:
    [stable_sort] is insertion sort (each element sinks into the part
    already sorted, kept in reverse), [dedup_runs] keeps one element of
    every run of equal elements. *)

Section Reference.
Context {T : Type} `{EqDecision T}.
Variable lt : T -> T -> bool.

(** The comparator a caller builds from an order on the elements:
    [less(i, j)] is [x[i] < x[j]]. *)
Definition less_by (v : list T) (i j : Z) : bool :=
  match v !! Z.to_nat i, v !! Z.to_nat j with
  | Some x, Some y => lt x y
  | _, _ => false
  end.

Fixpoint sink (x : T) (r : list T) : list T :=
  match r with
  | [] => [x]
  | y :: r' => if lt x y then y :: sink x r' else x :: r
  end.

Definition stable_sort (v : list T) : list T :=
  rev (fold_left (fun r x => sink x r) v []).




(** Neither element sorts before the other. *)
Definition same_rank (c y : T) : bool := negb (lt c y) && negb (lt y c).

End Reference.

(** *** Concrete instances, for the examples below *)

(** Growth on reallocation as the runtime does it for small slices: the
    capacity doubles, unless that is still too small. *)
Definition doubling (old need : nat) : nat := (2 * old - need)%nat.

(** The comparator of the test suite, [x[i] < x[j]] on a slice of ints. *)
Definition less_int : list Z -> Z -> Z -> bool := less_by Z.ltb.

(** [x := []int{0, 1, 2, 3}], the slice most tests start from. *)
Definition x0123 : slice := Slice 0 0 4 4.
Definition heap0123 : heap Z := [[0; 1; 2; 3]].

(** The same slice next to the arguments [7, 8, 9] of a variadic call,
    which the caller passes as a slice of their own array. *)
Definition heap0123_789 : heap Z := heap0123 ++ [[7; 8; 9]].
Definition elems789 : slice := Slice 1 0 3 3.

(** [x := make([]int, len(vs), len(vs) + room)] filled with [vs]. *)
Definition with_room (vs : list Z) (room : nat) : slice * heap Z :=
  (Slice 0 0 (length vs) (length vs + room), [vs ++ replicate room 0]).

(** What an assertion of the test suite looks at: the elements of the
    slice a call leaves, or of every slice it returns. *)
Definition left_in {A} (which : A -> slice) (o : outcome (A * heap Z))
    : option (list Z) :=
  match o with
  | Ok (r, h) => Some (view h (which r))
  | _ => None
  end.

Definition returned (o : outcome (list slice * heap Z))
    : option (list (list Z)) :=
  match o with
  | Ok (r, h) => Some (map (view h) r)
  | _ => None
  end.

(** * Properties *)

(** ** The package's tests, replayed on the embedding *)

Example TestCutMiddle :
  left_in id (Cut 0 x0123 1 3 heap0123) = Some [0; 3].
Proof. reflexivity. Qed.

Example TestDeleteMiddle :
  left_in id (Delete 0 x0123 2 heap0123) = Some [0; 1; 3].
Proof. reflexivity. Qed.

Example TestExpandStart :
  left_in id (Expand 0 doubling x0123 0 3 heap0123) =
    Some [0; 0; 0; 0; 1; 2; 3].
Proof. reflexivity. Qed.

Example TestExpandMiddle :
  left_in id (Expand 0 doubling x0123 2 3 heap0123) =
    Some [0; 1; 0; 0; 0; 2; 3].
Proof. reflexivity. Qed.

Example TestExpandEnd :
  left_in id (Expand 0 doubling x0123 4 3 heap0123) =
    Some [0; 1; 2; 3; 0; 0; 0].
Proof. reflexivity. Qed.

Example TestExpandZero :
  left_in id (Expand 0 doubling x0123 4 0 heap0123) = Some [0; 1; 2; 3].
Proof. reflexivity. Qed.

Example TestFilter :
  left_in id (PartA.Filter x0123 Z.even heap0123) = Some [0; 2] /\
  left_in id (PartB.Filter 0 x0123 Z.even heap0123) = Some [0; 2].
Proof. split; reflexivity. Qed.

Example TestFilterZeroAlloc :
  left_in id (FilterZeroAlloc 0 doubling x0123 Z.even heap0123) =
    Some [0; 2].
Proof. reflexivity. Qed.

Example TestFilterZeroAllocNoGC :
  left_in id (FilterZeroAllocNoGC 0 doubling x0123 Z.even heap0123) =
    Some [0; 2].
Proof. reflexivity. Qed.

Example TestInsertMiddle :
  left_in id (Insert 0 doubling x0123 2 9 heap0123) = Some [0; 1; 9; 2; 3].
Proof. reflexivity. Qed.

Example TestInsertManyWithoutCapacity :
  let h := heap0123 ++ [[7; 8; 9]] in
  let elems := Slice 1 0 3 3 in
  left_in id (InsertMany 0 x0123 0 elems h) = Some [7; 8; 9; 0; 1; 2; 3] /\
  left_in id (InsertMany 0 x0123 2 elems h) = Some [0; 1; 7; 8; 9; 2; 3] /\
  left_in id (InsertMany 0 x0123 4 elems h) = Some [0; 1; 2; 3; 7; 8; 9].
Proof. repeat split; reflexivity. Qed.

Example TestInsertManyWithCapacity :
  let x := fst (with_room [0; 1; 2; 3] 996) in
  let h := snd (with_room [0; 1; 2; 3] 996) ++ [[7; 8; 9]] in
  let elems := Slice 1 0 3 3 in
  left_in id (InsertMany 0 x 0 elems h) = Some [7; 8; 9; 0; 1; 2; 3] /\
  left_in id (InsertMany 0 x 2 elems h) = Some [0; 1; 7; 8; 9; 2; 3] /\
  left_in id (InsertMany 0 x 4 elems h) = Some [0; 1; 2; 3; 7; 8; 9].
Proof. repeat split; vm_compute; reflexivity. Qed.

Example TestPush :
  left_in id (Push 0 doubling (Slice 0 0 3 3) 3 [[0; 1; 2]]) =
    Some [0; 1; 2; 3].
Proof. reflexivity. Qed.

Example TestPushFront :
  left_in id (PushFront 0 doubling (Slice 0 0 3 3) 3 [[0; 1; 2]]) =
    Some [3; 0; 1; 2].
Proof. reflexivity. Qed.

Example TestPop :
  Pop (Slice 0 0 3 3) [[0; 1; 2]] = Ok ((2, Slice 0 0 2 3), [[0; 1; 2]]).
Proof. reflexivity. Qed.

Example TestPopFront :
  PopFront (Slice 0 0 3 3) [[0; 1; 2]] =
    Ok ((0, Slice 0 1 2 2), [[0; 1; 2]]).
Proof. reflexivity. Qed.

Example TestBatchesEven :
  returned (Batches 6 (Slice 0 0 6 6) 3 [[0; 1; 2; 3; 4; 5]]) =
    Some [[0; 1; 2]; [3; 4; 5]].
Proof. reflexivity. Qed.

Example TestBatchesUneven :
  returned (Batches 8 (Slice 0 0 8 8) 3 [[0; 1; 2; 3; 4; 5; 6; 7]]) =
    Some [[0; 1; 2]; [3; 4; 5]; [6; 7]].
Proof. reflexivity. Qed.

Example TestBatchesEmpty :
  returned (Batches 0 (Slice 0 0 0 0) 3 [[]]) = Some [].
Proof. reflexivity. Qed.

Example TestReverse :
  Reverse (Slice 0 0 5 5) [[0; 1; 2; 3; 4]] = Ok (tt, [[4; 3; 2; 1; 0]]).
Proof. reflexivity. Qed.

Example TestSlidingWindow :
  returned (SlidingWindow 5 (Slice 0 0 5 5) 3 [[0; 1; 2; 3; 4]]) =
    Some [[0; 1; 2]; [1; 2; 3]; [2; 3; 4]].
Proof. reflexivity. Qed.

Example TestSlidingWindowEmpty :
  returned (SlidingWindow 0 (Slice 0 0 0 0) 3 [[]]) = Some [].
Proof. reflexivity. Qed.

Example TestSlidingWindowBiggerThanSlice :
  returned (SlidingWindow 2 (Slice 0 0 2 2) 5 [[0; 1]]) = Some [[0; 1]].
Proof. reflexivity. Qed.

Example TestSortAndDeduplicate :
  left_in id
    (SortAndDeduplicate (Slice 0 0 10 10) less_int
       [[9; 3; 3; 4; 6; 3; 6; 9; 3; 5]]) = Some [3; 4; 5; 6; 9].
Proof. vm_compute. reflexivity. Qed.

(** ** Integers that stay in range *)

Lemma wrap_small z : Int.in_range z -> Int.wrap z = z.
Proof.
  unfold Int.in_range, Int.wrap, Int.min_int, Int.max_int. intros Hz.
  rewrite Z.mod_small; lia.
Qed.

Lemma add_small x y : Int.in_range (x + y) -> Int.add x y = x + y.
Proof. apply wrap_small. Qed.

Lemma sub_small x y : Int.in_range (x - y) -> Int.sub x y = x - y.
Proof. apply wrap_small. Qed.

(** An intermediate overflow is harmless when the final value fits. *)
Lemma sub_add_small x y z :
  Int.in_range (x + y - z) -> Int.sub (Int.add x y) z = x + y - z.
Proof.
  intros Hr. rewrite <- (wrap_small _ Hr).
  unfold Int.sub, Int.add, Int.wrap. f_equal.
  replace (((x + y + 2 ^ 63) mod 2 ^ 64 - 2 ^ 63 - z + 2 ^ 63))
    with ((x + y + 2 ^ 63) mod 2 ^ 64 - z) by lia.
  rewrite Zminus_mod_idemp_l. f_equal. lia.
Qed.

Ltac in_range :=
  unfold Int.in_range, Int.min_int, Int.max_int, len, cap in *; simpl; lia.

Ltac int_simpl := rewrite ?sub_small, ?add_small by in_range.

(** ** Lists read position by position *)

Section ListFacts.
Context {A : Type}.
Implicit Types (l k : list A).

Lemma lookup_app_dec l1 l2 (i : nat) :
  (l1 ++ l2) !! i =
    if decide (i < length l1)%nat then l1 !! i
    else l2 !! (i - length l1)%nat.
Proof.
  case_decide; [by apply lookup_app_l | apply lookup_app_r; lia].
Qed.

Lemma lookup_inserts_dec l (i : nat) k (j : nat) :
  list_inserts i k l !! j =
    if decide ((i <= j < i + length k)%nat /\ (j < length l)%nat)
    then k !! (j - i)%nat else l !! j.
Proof.
  case_decide as Hc.
  - destruct Hc. by apply list_lookup_inserts.
  - destruct (decide (j < i)%nat); [by apply list_lookup_inserts_lt |].
    destruct (decide (i + length k <= j)%nat);
      [by apply list_lookup_inserts_ge |].
    assert (length l <= j)%nat by lia.
    rewrite !lookup_ge_None_2; rewrite ?length_inserts; auto.
Qed.

Lemma lookup_replicate_dec (n : nat) (x : A) (i : nat) :
  replicate n x !! i = if decide (i < n)%nat then Some x else None.
Proof.
  case_decide; [by apply lookup_replicate_2 |].
  apply lookup_replicate_None; lia.
Qed.

Lemma lookup_cons_dec (x : A) l (i : nat) :
  (x :: l) !! i = if decide (i = 0)%nat then Some x else l !! (i - 1)%nat.
Proof.
  destruct i as [|i]; simpl; [done|]. by rewrite Nat.sub_0_r.
Qed.

End ListFacts.

Ltac list_lengths :=
  repeat first
    [ rewrite length_take | rewrite length_drop | rewrite length_app
    | rewrite length_inserts | rewrite length_insert
    | rewrite length_replicate | progress cbn [length] ].

Ltac list_lookups :=
  repeat first
    [ rewrite lookup_take | rewrite lookup_drop | rewrite lookup_app_dec
    | rewrite lookup_inserts_dec | rewrite list_lookup_insert
    | rewrite lookup_replicate_dec | rewrite lookup_cons_dec
    | rewrite lookup_nil | progress list_lengths ].

Ltac min_simpl :=
  repeat match goal with
  | |- context [Nat.min ?a ?b] =>
      first [ rewrite (Nat.min_l a b) by lia
            | rewrite (Nat.min_r a b) by lia ]
  end.

(** Name every [Z.to_nat z] of the goal, keeping [Z.of_nat n = z]. *)
Ltac to_nat_simpl :=
  repeat match goal with
  | |- context [Z.to_nat ?z] =>
      let n := fresh "n" in
      let E := fresh "E" in
      remember (Z.to_nat z) as n eqn:E;
      assert (Z.of_nat n = z) by lia; clear E
  end.

Ltac decide_step :=
  match goal with
  | |- context [@decide ?P ?d] =>
      destruct (@decide P d); try (exfalso; lia)
  end.

Ltac lookup_finish :=
  first
    [ lia
    | reflexivity
    | f_equal; lia
    | apply lookup_ge_None_2; list_lengths; lia
    | symmetry; apply lookup_ge_None_2; list_lengths; lia ].

Ltac pointwise :=
  apply list_eq; intros ?; list_lookups; min_simpl;
  repeat decide_step; lookup_finish.

(** ** The built-ins on well-formed headers *)

Section HeapFacts.
Context {T : Type}.
Implicit Types (h : heap T) (s a : slice).

Lemma array_alter (f : list T -> list T) (b : nat) h s :
  (b < length h)%nat ->
  array (alter f b h) s =
    if decide (b = s_arr s) then f (array h s) else array h s.
Proof.
  intros Hb. unfold array. rewrite list_lookup_alter.
  case_decide; [subst|done].
  destruct (lookup_lt_is_Some_2 h (s_arr s) Hb) as [x Hx].
  by rewrite Hx.
Qed.

Lemma bind_ok {A B} (m : M T A) (k : A -> M T B) h x h' :
  m h = Ok (x, h') -> bind m k h = k x h'.
Proof. unfold bind. by intros ->. Qed.

Lemma reslice_ok s lo hi h :
  0 <= lo <= hi -> hi <= cap s ->
  reslice s lo hi h =
    Ok (Slice (s_arr s) (s_off s + Z.to_nat lo) (Z.to_nat (hi - lo))
              (s_cap s - Z.to_nat lo), h).
Proof.
  intros [H1 H2] H3. unfold reslice.
  rewrite (proj2 (Z.leb_le 0 lo)), (proj2 (Z.leb_le lo hi)),
    (proj2 (Z.leb_le hi (cap s))) by done.
  done.
Qed.

Lemma assign_ok s i x h :
  0 <= i < len s ->
  assign s i x h =
    Ok (tt, alter (<[(s_off s + Z.to_nat i)%nat := x]>) (s_arr s) h).
Proof.
  intros [H1 H2]. unfold assign.
  by rewrite (proj2 (Z.leb_le 0 i)), (proj2 (Z.ltb_lt i (len s))).
Qed.

Lemma index_ok s i x h :
  0 <= i < len s ->
  array h s !! (s_off s + Z.to_nat i)%nat = Some x ->
  index s i h = Ok (x, h).
Proof.
  intros [H1 H2] Hx. unfold index.
  by rewrite (proj2 (Z.leb_le 0 i)), (proj2 (Z.ltb_lt i (len s))), Hx.
Qed.

(** Clearing a run of slots one by one amounts to one block write. *)
Lemma zero_fill_ok (zero : T) a (n : nat) (k : Z) h :
  0 <= k -> k + Z.of_nat n <= len a ->
  for_upto n k (fun k _ => assign a k zero) tt h =
    Ok (tt, alter (list_inserts (s_off a + Z.to_nat k) (replicate n zero))
              (s_arr a) h).
Proof.
  revert k h. induction n as [|n IH]; intros k h Hk Hn.
  - simpl. unfold ret. f_equal. f_equal.
    symmetry. by apply list_alter_id.
  - simpl. erewrite bind_ok by (apply assign_ok; lia).
    rewrite IH by lia. f_equal. f_equal.
    rewrite list_alter_alter_eq. apply list_alter_ext; [|done].
    intros l _. simpl.
    replace (s_off a + Z.to_nat (k + 1))%nat
      with (S (s_off a + Z.to_nat k)) by lia.
    symmetry. apply list_insert_inserts_lt. lia.
Qed.

Lemma view_length h s : wf h s -> length (view h s) = s_len s.
Proof.
  intros (? & ? & ? & ?). unfold view. list_lengths. lia.
Qed.

Lemma view_lookup h s (i : nat) :
  view h s !! i =
    if decide (i < s_len s)%nat then array h s !! (s_off s + i)%nat
    else None.
Proof. unfold view. by list_lookups. Qed.

End HeapFacts.

(** Run a [bind] whose first computation is settled by [lem]. *)
Tactic Notation "step" uconstr(lem) :=
  erewrite bind_ok by (apply lem; unfold len, cap in *; simpl; lia).

(** Reduce a goal on views to the array they read, then go pointwise. *)
Ltac view_pointwise :=
  unfold view, array in *; simpl;
  unfold len, cap, Int.max_int in *; simpl;
  to_nat_simpl; pointwise.

(** ** Cut and Delete *)

Section CutDelete.
Context {T : Type}.
Variable zero : T.
Implicit Types (h : heap T) (a : slice).

Lemma Cut_ok h a start end_ :
  wf h a -> 0 <= start <= end_ -> end_ <= len a ->
  exists a' h',
    Cut zero a start end_ h = Ok (a', h') /\
    view h' a' =
      take (Z.to_nat start) (view h a) ++ drop (Z.to_nat end_) (view h a) /\
    len a' = len a - (end_ - start) /\
    (forall k : nat, len a' <= Z.of_nat k < len a ->
       array h' a !! (s_off a + k)%nat = Some zero).
Proof.
  intros Hwf Hse Hel.
  pose proof Hwf as (Harr & Hlc & Hoc & Hmax).
  unfold Cut, slice_from, slice_to. int_simpl.
  step reslice_ok. step reslice_ok.
  unfold copy at 1. unfold bind at 1. unfold for_lt.
  step zero_fill_ok.
  rewrite reslice_ok by (unfold len, cap in *; lia).
  eexists _, _. split; [reflexivity|].
  unfold put. simpl.
  split; [|split; [unfold len in *; simpl; lia|]].
  - unfold view at 1.
    rewrite !array_alter by (rewrite ?length_alter; done).
    simpl. rewrite !decide_True by done.
    view_pointwise.
  - intros k Hk.
    rewrite !array_alter by (rewrite ?length_alter; done).
    simpl. rewrite !decide_True by done.
    unfold view, array in *; simpl.
    unfold len, cap, Int.max_int in *; simpl in *.
    to_nat_simpl. list_lookups. min_simpl.
    repeat decide_step; lookup_finish.
Qed.

Lemma Delete_ok h a i :
  wf h a -> 0 <= i < len a ->
  exists a' h',
    Delete zero a i h = Ok (a', h') /\
    view h' a' =
      take (Z.to_nat i) (view h a) ++ drop (Z.to_nat (i + 1)) (view h a) /\
    len a' = len a - 1 /\
    array h' a !! (s_off a + s_len a')%nat = Some zero.
Proof.
  intros Hwf Hi.
  pose proof Hwf as (Harr & Hlc & Hoc & Hmax).
  unfold Delete, slice_from, slice_to. int_simpl.
  step reslice_ok. step reslice_ok.
  unfold copy at 1. unfold bind at 1.
  step assign_ok.
  rewrite reslice_ok by (unfold len, cap in *; lia).
  eexists _, _. split; [reflexivity|].
  unfold put. simpl.
  rewrite !array_alter by (rewrite ?length_alter; done).
  simpl. rewrite !decide_True by done.
  split; [|split; [unfold len in *; simpl; lia|]].
  - unfold view at 1.
    rewrite !array_alter by (rewrite ?length_alter; done).
    simpl. rewrite !decide_True by done.
    view_pointwise.
  - unfold view, array in *; simpl.
    unfold len, cap, Int.max_int in *; simpl in *.
    to_nat_simpl. list_lookups. min_simpl.
    repeat decide_step; lookup_finish.
Qed.

(** C6.  On a well-formed slice, [Cut] with [0 <= start <= end <= len]
    succeeds and leaves [s[:start] ++ s[end:]], shorter by exactly
    [end - start]; [Delete] with [0 <= i < len] succeeds and leaves
    [s[:i] ++ s[i+1:]], shorter by exactly one.  Equality with the
    concatenation carries the order of the remainder. *)
Theorem Cut_Delete_concat h a :
  wf h a ->
  (forall start end_, 0 <= start <= end_ -> end_ <= len a ->
     exists a' h',
       Cut zero a start end_ h = Ok (a', h') /\
       view h' a' =
         take (Z.to_nat start) (view h a) ++
         drop (Z.to_nat end_) (view h a) /\
       len a' = len a - (end_ - start)) /\
  (forall i, 0 <= i < len a ->
     exists a' h',
       Delete zero a i h = Ok (a', h') /\
       view h' a' =
         take (Z.to_nat i) (view h a) ++
         drop (Z.to_nat (i + 1)) (view h a) /\
       len a' = len a - 1).
Proof.
  intros Hwf. split.
  - intros start end_ Hse Hel.
    destruct (Cut_ok h a start end_ Hwf Hse Hel)
      as (a' & h' & Hrun & Hview & Hlen & _).
    by exists a', h'.
  - intros i Hi.
    destruct (Delete_ok h a i Hwf Hi)
      as (a' & h' & Hrun & Hview & Hlen & _).
    by exists a', h'.
Qed.

End CutDelete.

(** ** append, within capacity and beyond *)

Section AppendFacts.
Context {T : Type}.
Variable zero : T.
Variable spare : nat -> nat -> nat.
Implicit Types (h : heap T) (s a : slice).

Lemma append_fits s vs h :
  (s_len s + length vs <= s_cap s)%nat ->
  Z.of_nat (s_len s + length vs) <= Int.max_int ->
  append zero spare s vs h =
    Ok (Slice (s_arr s) (s_off s) (s_len s + length vs) (s_cap s),
        alter (list_inserts (s_off s + s_len s) vs) (s_arr s) h).
Proof.
  intros Hfit Hmax. unfold append.
  destruct (Z.gtb_spec (Z.of_nat (s_len s + length vs)) Int.max_int); [lia|].
  destruct (Nat.leb_spec (s_len s + length vs) (s_cap s)); [done|lia].
Qed.

Lemma append_grows s vs h :
  (s_cap s < s_len s + length vs)%nat ->
  Z.of_nat (s_len s + length vs) <= Int.max_int ->
  append zero spare s vs h =
    Ok (Slice (length h) 0 (s_len s + length vs)
          (s_len s + length vs + spare (s_cap s) (s_len s + length vs)),
        h ++ [view h s ++ vs ++
              replicate (spare (s_cap s) (s_len s + length vs)) zero]).
Proof.
  intros Hfit Hmax. unfold append.
  destruct (Z.gtb_spec (Z.of_nat (s_len s + length vs)) Int.max_int); [lia|].
  destruct (Nat.leb_spec (s_len s + length vs) (s_cap s)); [lia|done].
Qed.

Lemma array_old h (l : list T) s :
  (s_arr s < length h)%nat -> array (h ++ [l]) s = array h s.
Proof. intros Hs. unfold array. by rewrite lookup_app_l. Qed.

Lemma array_new h (l : list T) s :
  s_arr s = length h -> array (h ++ [l]) s = l.
Proof.
  intros Hs. unfold array. rewrite Hs, lookup_app_r by lia.
  by rewrite Nat.sub_diag.
Qed.

Lemma view_old h (l : list T) s :
  (s_arr s < length h)%nat -> view (h ++ [l]) s = view h s.
Proof. intros Hs. unfold view. by rewrite array_old. Qed.

Lemma view_length_in h s : in_bounds h s -> length (view h s) = s_len s.
Proof. intros (? & ? & ?). unfold view. list_lengths. lia. Qed.

(** [append] in one statement: the result holds the old elements
    followed by the new ones, and no other array changes. *)
Lemma append_spec s vs h :
  in_bounds h s ->
  Z.of_nat (s_len s + length vs) <= Int.max_int ->
  exists s' h',
    append zero spare s vs h = Ok (s', h') /\
    view h' s' = view h s ++ vs /\
    s_len s' = (s_len s + length vs)%nat /\
    in_bounds h' s' /\
    (length h <= length h')%nat /\
    (forall t, (s_arr t < length h)%nat -> s_arr t <> s_arr s ->
       array h' t = array h t).
Proof.
  intros Hin Hmax. pose proof (view_length_in h s Hin) as Hv.
  destruct Hin as (Harr & Hlc & Hoc).
  destruct (le_lt_dec (s_len s + length vs) (s_cap s)) as [Hfit|Hgrow].
  - rewrite append_fits by done.
    eexists _, _. split; [reflexivity|]. simpl.
    split; [|split; [done|split; [|split]]].
    + unfold view in *. simpl.
      rewrite array_alter, decide_True by done.
      unfold array in *. simpl. pointwise.
    + unfold in_bounds. simpl. rewrite length_alter.
      rewrite array_alter, decide_True by done. list_lengths.
      unfold array in *. simpl. repeat split; lia.
    + by rewrite length_alter.
    + intros t Ht Hne. rewrite array_alter by done.
      by rewrite decide_False.
  - rewrite append_grows by done.
    eexists _, _. split; [reflexivity|]. simpl.
    split; [|split; [done|split; [|split]]].
    + unfold view at 1. simpl. rewrite array_new by done.
      set (v := view h s) in *. pointwise.
    + unfold in_bounds. simpl. rewrite array_new by done.
      list_lengths. rewrite Hv. repeat split; lia.
    + rewrite length_app. lia.
    + intros t Ht Hne. by rewrite array_old.
Qed.

End AppendFacts.

(** ** The Filter family *)

Section FilterFacts.
Context {T : Type}.
Variable zero : T.
Variable spare : nat -> nat -> nat.
Implicit Types (h : heap T) (a : slice) (keep : T -> bool).

(** The body of the compaction pass of [Filter] and [FilterNoGC], and of
    the pass of the two [FilterZeroAlloc] functions. *)
#[local] Abbreviation pass_body a keep :=
  (fun (_ : Z) (x : T) (n : Z) =>
     if keep x then assign a n x ;;; ret (Int.add n 1) else ret n).

#[local] Abbreviation append_body keep :=
  (fun (_ : Z) (x : T) (b : slice) =>
     if keep x then append zero spare b [x] else ret b).

(** What one kept element does to the array: the run of kept elements
    grows by it, and nothing at or behind the read position moves. *)
Lemma keep_one (A : list T) (off i n k : nat) x :
  A !! (off + i)%nat = Some x -> (n <= i)%nat ->
  take (S n) (drop off (<[(off + n)%nat := x]> A)) =
    take n (drop off A) ++ [x] /\
  take k (drop (off + S i) (<[(off + n)%nat := x]> A)) =
    take k (drop (off + S i) A).
Proof.
  intros Hx Hn. pose proof (lookup_lt_Some _ _ _ Hx) as Hlt. split.
  - simpl. pointwise.
  - rewrite drop_insert_lt by lia. done.
Qed.

Lemma read_one (A : list T) (j k : nat) x :
  A !! j = Some x ->
  take (S k) (drop j A) = x :: take k (drop (S j) A).
Proof.
  intros Hx. pose proof (lookup_lt_Some _ _ _ Hx) as Hlt.
  apply list_eq; intros i. list_lookups.
  repeat decide_step; try lookup_finish.
  subst i. rewrite Nat.add_0_r. done.
Qed.

(** The compaction pass from read position [i] with [n] elements kept
    so far: it returns the count of kept elements and leaves them, in
    order, at the front of the slice. *)
Lemma pass_ok keep a (k : nat) : forall (i n : nat) h,
  (s_arr a < length h)%nat ->
  (s_off a + s_len a <= length (array h a))%nat ->
  Z.of_nat (length (array h a)) < Int.max_int ->
  (i + k = s_len a)%nat -> (n <= i)%nat ->
  let kept := List.filter keep (take k (drop (s_off a + i) (array h a))) in
  exists h',
    range_from a i k (pass_body a keep) (Z.of_nat n) h =
      Ok (Z.of_nat (n + length kept), h') /\
    length h' = length h /\
    length (array h' a) = length (array h a) /\
    take (n + length kept) (drop (s_off a) (array h' a)) =
      take n (drop (s_off a) (array h a)) ++ kept.
Proof.
  induction k as [|k IH]; intros i n h Harr Hlen Hmax Hik Hn kept.
  - subst kept. simpl. exists h. rewrite !Nat.add_0_r, app_nil_r. done.
  - destruct (lookup_lt_is_Some_2 (array h a) (s_off a + i)) as [x Hx];
      [lia|].
    simpl. erewrite bind_ok by (apply index_ok; [in_range|];
      rewrite Nat2Z.id; exact Hx).
    subst kept. rewrite (read_one _ _ _ x Hx). simpl.
    destruct (keep x) eqn:Hkeep.
    + erewrite bind_ok; cycle 1.
      { erewrite bind_ok by (apply assign_ok; in_range). reflexivity. }
      rewrite add_small by in_range.
      set (h1 := alter _ _ h).
      assert (array h1 a = <[(s_off a + n)%nat := x]> (array h a)) as HA.
      { subst h1. rewrite array_alter by done. rewrite decide_True by done.
        by rewrite Nat2Z.id. }
      destruct (keep_one (array h a) (s_off a) i n k x Hx Hn) as [Hpre Htl].
      destruct (IH (S i) (S n) h1) as (h' & Hrun & Hlh & Hla & Hres).
      { subst h1. by rewrite length_alter. }
      { rewrite HA, length_insert. lia. }
      { by rewrite HA, length_insert. }
      { lia. } { lia. }
      rewrite HA in Hrun, Hla, Hres. rewrite length_insert in Hla.
      replace (s_off a + S i)%nat with (S (s_off a + i)) in * by lia.
      rewrite Htl in Hrun, Hres. rewrite Hpre in Hres.
      exists h'. simpl length.
      replace (Z.of_nat n + 1) with (Z.of_nat (S n)) by lia.
      replace (n + S _)%nat with (S n + length (List.filter keep
        (take k (drop (S (s_off a + i)) (array h a)))))%nat by lia.
      split; [exact Hrun|]. split; [subst h1; by rewrite Hlh, length_alter|].
      split; [done|]. rewrite Hres. by rewrite <- app_assoc.
    + destruct (IH (S i) n h) as (h' & Hrun & Hlh & Hla & Hres);
        try done; try lia.
      replace (s_off a + S i)%nat with (S (s_off a + i)) in * by lia.
      exists h'. done.
Qed.

(** The same pass written with [append] on the empty prefix of [a]: every
    [append] fits the capacity, so it writes into the array of [a]. *)
Lemma append_pass_ok keep a (k : nat) : forall (i n : nat) h,
  (s_arr a < length h)%nat -> (s_len a <= s_cap a)%nat ->
  (s_off a + s_cap a <= length (array h a))%nat ->
  Z.of_nat (length (array h a)) < Int.max_int ->
  (i + k = s_len a)%nat -> (n <= i)%nat ->
  let kept := List.filter keep (take k (drop (s_off a + i) (array h a))) in
  exists h',
    range_from a i k (append_body keep)
      (Slice (s_arr a) (s_off a) n (s_cap a)) h =
      Ok (Slice (s_arr a) (s_off a) (n + length kept) (s_cap a), h') /\
    length h' = length h /\
    length (array h' a) = length (array h a) /\
    take (n + length kept) (drop (s_off a) (array h' a)) =
      take n (drop (s_off a) (array h a)) ++ kept.
Proof.
  induction k as [|k IH]; intros i n h Harr Hlc Hlen Hmax Hik Hn kept.
  - subst kept. simpl. exists h. rewrite !Nat.add_0_r, app_nil_r. done.
  - destruct (lookup_lt_is_Some_2 (array h a) (s_off a + i)) as [x Hx];
      [lia|].
    simpl. erewrite bind_ok by (apply index_ok; [in_range|];
      rewrite Nat2Z.id; exact Hx).
    subst kept. rewrite (read_one _ _ _ x Hx). simpl.
    destruct (keep x) eqn:Hkeep.
    + erewrite bind_ok by (apply append_fits; simpl; in_range).
      simpl.
      set (h1 := alter _ _ h).
      assert (array h1 a = <[(s_off a + n)%nat := x]> (array h a)) as HA.
      { subst h1. rewrite array_alter by done. by rewrite decide_True. }
      destruct (keep_one (array h a) (s_off a) i n k x Hx Hn) as [Hpre Htl].
      destruct (IH (S i) (S n) h1) as (h' & Hrun & Hlh & Hla & Hres).
      { subst h1. by rewrite length_alter. }
      { done. }
      { rewrite HA, length_insert. lia. }
      { by rewrite HA, length_insert. }
      { lia. } { lia. }
      rewrite HA in Hrun, Hla, Hres. rewrite length_insert in Hla.
      replace (s_off a + S i)%nat with (S (s_off a + i)) in * by lia.
      rewrite Htl in Hrun, Hres. rewrite Hpre in Hres.
      exists h'. simpl length.
      replace (n + 1)%nat with (S n) by lia.
      replace (n + S _)%nat with (S n + length (List.filter keep
        (take k (drop (S (s_off a + i)) (array h a)))))%nat by lia.
      split; [exact Hrun|]. split; [subst h1; by rewrite Hlh, length_alter|].
      split; [done|]. rewrite Hres. by rewrite <- app_assoc.
    + destruct (IH (S i) n h) as (h' & Hrun & Hlh & Hla & Hres);
        try done; try lia.
      replace (s_off a + S i)%nat with (S (s_off a + i)) in * by lia.
      exists h'. done.
Qed.

Lemma kept_le keep h a :
  wf h a -> (length (List.filter keep (view h a)) <= s_len a)%nat.
Proof.
  intros Hwf. rewrite <- (view_length h a Hwf). apply List.filter_length_le.
Qed.

Lemma pass_whole keep h a :
  wf h a ->
  let kept := List.filter keep (view h a) in
  exists h',
    range a (pass_body a keep) 0 h = Ok (Z.of_nat (length kept), h') /\
    length h' = length h /\
    length (array h' a) = length (array h a) /\
    take (length kept) (drop (s_off a) (array h' a)) = kept.
Proof.
  intros (Harr & Hlc & Hoc & Hmax) kept.
  destruct (pass_ok keep a (s_len a) 0 0 h) as (h' & Hrun & Hlh & Hla & Hres);
    try done; try lia.
  rewrite Nat.add_0_r in *. simpl in Hrun, Hres.
  exists h'. done.
Qed.

Lemma append_pass_whole keep h a :
  wf h a ->
  let kept := List.filter keep (view h a) in
  exists h',
    range a (append_body keep) (Slice (s_arr a) (s_off a) 0 (s_cap a)) h =
      Ok (Slice (s_arr a) (s_off a) (length kept) (s_cap a), h') /\
    length h' = length h /\
    length (array h' a) = length (array h a) /\
    take (length kept) (drop (s_off a) (array h' a)) = kept.
Proof.
  intros (Harr & Hlc & Hoc & Hmax) kept.
  destruct (append_pass_ok keep a (s_len a) 0 0 h)
    as (h' & Hrun & Hlh & Hla & Hres); try done; try lia.
  rewrite Nat.add_0_r in *. simpl in Hrun, Hres.
  exists h'. done.
Qed.

Lemma FilterA_ok keep h a :
  wf h a ->
  exists a' h',
    PartA.Filter a keep h = Ok (a', h') /\
    view h' a' = List.filter keep (view h a).
Proof.
  intros Hwf. pose proof (kept_le keep h a Hwf) as Hle.
  destruct (pass_whole keep h a Hwf) as (h' & Hrun & Hlh & Hla & Hres).
  destruct Hwf as (Harr & Hlc & Hoc & Hmax).
  unfold PartA.Filter. erewrite bind_ok by exact Hrun.
  unfold slice_to. rewrite reslice_ok by in_range.
  eexists _, _. split; [reflexivity|].
  unfold view at 1. simpl.
  rewrite Z.sub_0_r, Nat2Z.id, Nat.add_0_r. exact Hres.
Qed.

Lemma FilterNoGC_ok keep h a :
  wf h a ->
  exists a' h',
    PartB.FilterNoGC a keep h = Ok (a', h') /\
    view h' a' = List.filter keep (view h a).
Proof. apply FilterA_ok. Qed.

Lemma FilterB_ok keep h a :
  wf h a ->
  exists a' h',
    PartB.Filter zero a keep h = Ok (a', h') /\
    view h' a' = List.filter keep (view h a) /\
    (forall k : nat, (s_len a' <= k < s_len a)%nat ->
       array h' a !! (s_off a + k)%nat = Some zero).
Proof.
  intros Hwf. pose proof (kept_le keep h a Hwf) as Hle.
  destruct (pass_whole keep h a Hwf) as (h' & Hrun & Hlh & Hla & Hres).
  destruct Hwf as (Harr & Hlc & Hoc & Hmax).
  unfold PartB.Filter. erewrite bind_ok by exact Hrun.
  unfold for_lt. step zero_fill_ok.
  unfold slice_to. rewrite reslice_ok by in_range.
  eexists _, _. split; [reflexivity|].
  unfold view at 1. simpl.
  rewrite !array_alter by lia. rewrite !decide_True by done.
  rewrite Z.sub_0_r, !Nat2Z.id, Nat.add_0_r.
  set (n := length (List.filter keep (view h a))) in *.
  unfold array, len in *. simpl. split.
  - rewrite <- Hres. to_nat_simpl. pointwise.
  - intros k Hk. to_nat_simpl. list_lookups.
    repeat decide_step; lookup_finish.
Qed.

Lemma FilterZeroAllocNoGC_ok keep h a :
  wf h a ->
  exists a' h',
    FilterZeroAllocNoGC zero spare a keep h = Ok (a', h') /\
    view h' a' = List.filter keep (view h a).
Proof.
  intros Hwf.
  destruct (append_pass_whole keep h a Hwf) as (h' & Hrun & Hlh & Hla & Hres).
  destruct Hwf as (Harr & Hlc & Hoc & Hmax).
  unfold FilterZeroAllocNoGC, slice_to. step reslice_ok.
  change (Z.to_nat (0 - 0)) with 0%nat. change (Z.to_nat 0) with 0%nat.
  rewrite Nat.add_0_r, Nat.sub_0_r. rewrite Hrun.
  eexists _, _. split; [reflexivity|]. exact Hres.
Qed.

Lemma FilterZeroAlloc_ok keep h a :
  wf h a ->
  exists a' h',
    FilterZeroAlloc zero spare a keep h = Ok (a', h') /\
    view h' a' = List.filter keep (view h a) /\
    (forall k : nat, (s_len a' <= k < s_len a)%nat ->
       array h' a !! (s_off a + k)%nat = Some zero).
Proof.
  intros Hwf. pose proof (kept_le keep h a Hwf) as Hle.
  destruct (append_pass_whole keep h a Hwf) as (h' & Hrun & Hlh & Hla & Hres).
  destruct Hwf as (Harr & Hlc & Hoc & Hmax).
  unfold FilterZeroAlloc, slice_to. step reslice_ok.
  change (Z.to_nat (0 - 0)) with 0%nat. change (Z.to_nat 0) with 0%nat.
  rewrite Nat.add_0_r, Nat.sub_0_r.
  erewrite bind_ok by exact Hrun.
  unfold for_lt. step zero_fill_ok.
  eexists _, _. split; [reflexivity|].
  unfold view at 1. simpl.
  rewrite !array_alter by lia. rewrite !decide_True by done.
  set (n := length (List.filter keep (view h a))) in *.
  unfold array, len in *. simpl. rewrite !Nat2Z.id. split.
  - rewrite <- Hres. to_nat_simpl. pointwise.
  - intros k Hk. to_nat_simpl. list_lookups.
    repeat decide_step; lookup_finish.
Qed.

(** C5.  On a well-formed slice every function of the Filter family
    succeeds and leaves exactly the elements the predicate accepts, in
    their original order: the [Filter] of either copy, and with the same
    result the variants [FilterNoGC], [FilterZeroAllocNoGC] and
    [FilterZeroAlloc]. *)
Theorem Filter_family_agree keep h a :
  wf h a ->
  let kept := List.filter keep (view h a) in
  (exists a' h', PartA.Filter a keep h = Ok (a', h') /\ view h' a' = kept) /\
  (exists a' h',
     PartB.Filter zero a keep h = Ok (a', h') /\ view h' a' = kept) /\
  (exists a' h',
     PartB.FilterNoGC a keep h = Ok (a', h') /\ view h' a' = kept) /\
  (exists a' h',
     FilterZeroAllocNoGC zero spare a keep h = Ok (a', h') /\
     view h' a' = kept) /\
  (exists a' h',
     FilterZeroAlloc zero spare a keep h = Ok (a', h') /\
     view h' a' = kept).
Proof.
  intros Hwf kept. repeat split.
  - apply FilterA_ok, Hwf.
  - destruct (FilterB_ok keep h a Hwf) as (a' & h' & ? & ? & _).
    by exists a', h'.
  - apply FilterNoGC_ok, Hwf.
  - apply FilterZeroAllocNoGC_ok, Hwf.
  - destruct (FilterZeroAlloc_ok keep h a Hwf) as (a' & h' & ? & ? & _).
    by exists a', h'.
Qed.

End FilterFacts.

(** ** Push, PushFront, Pop, PopFront *)

Section PushPop.
Context {T : Type}.
Variable zero : T.
Variable spare : nat -> nat -> nat.
Implicit Types (h : heap T) (a s : slice).

Lemma wf_in_bounds h a : wf h a -> in_bounds h a /\ len a < Int.max_int.
Proof. intros (? & ? & ? & ?). unfold in_bounds, len. repeat split; lia. Qed.

Lemma Pop_ok h a :
  in_bounds h a -> len a <= Int.max_int -> 0 < len a ->
  exists x a',
    Pop a h = Ok ((x, a'), h) /\
    a' = Slice (s_arr a) (s_off a) (s_len a - 1) (s_cap a) /\
    array h a !! (s_off a + (s_len a - 1))%nat = Some x /\
    view h a = view h a' ++ [x].
Proof.
  intros (Harr & Hlc & Hoc) Hmax Hpos. unfold len in Hpos.
  destruct (lookup_lt_is_Some_2 (array h a) (s_off a + (s_len a - 1)))
    as [x Hx]; [lia|].
  exists x. eexists. unfold Pop, slice_to. int_simpl.
  erewrite bind_ok; cycle 1.
  { apply index_ok; [in_range|].
    replace (Z.to_nat (len a - 1)) with (s_len a - 1)%nat by in_range.
    exact Hx. }
  step reslice_ok. unfold ret.
  change (Z.to_nat 0) with 0%nat.
  rewrite Nat.add_0_r, Nat.sub_0_r, Z.sub_0_r.
  replace (Z.to_nat (len a - 1)) with (s_len a - 1)%nat by in_range.
  split; [reflexivity|]. split; [reflexivity|]. split; [exact Hx|].
  unfold view, array in *. simpl.
  set (A := default [] (h !! s_arr a)) in *.
  apply list_eq; intros i. list_lookups. min_simpl.
  repeat decide_step; try lookup_finish.
  rewrite <- Hx. f_equal. lia.
Qed.

Lemma PopFront_ok h a :
  in_bounds h a -> 0 < len a ->
  exists x a',
    PopFront a h = Ok ((x, a'), h) /\
    a' = Slice (s_arr a) (s_off a + 1) (s_len a - 1) (s_cap a - 1) /\
    array h a !! s_off a = Some x /\
    view h a = x :: view h a'.
Proof.
  intros (Harr & Hlc & Hoc) Hpos. unfold len in Hpos.
  destruct (lookup_lt_is_Some_2 (array h a) (s_off a)) as [x Hx]; [lia|].
  exists x. eexists. unfold PopFront, slice_from.
  erewrite bind_ok; cycle 1.
  { apply index_ok; [in_range|].
    change (Z.to_nat 0) with 0%nat. rewrite Nat.add_0_r. exact Hx. }
  step reslice_ok. unfold ret.
  change (Z.to_nat 1) with 1%nat.
  replace (Z.to_nat (len a - 1)) with (s_len a - 1)%nat by in_range.
  split; [reflexivity|]. split; [reflexivity|]. split; [exact Hx|].
  unfold view, array in *. simpl.
  set (A := default [] (h !! s_arr a)) in *.
  apply list_eq; intros i. list_lookups. min_simpl.
  repeat decide_step; try lookup_finish.
  subst i. rewrite Nat.add_0_r. exact Hx.
Qed.

(** C10.  On a non-empty well-formed slice, [Pop] and [PopFront] return
    the heap exactly as they found it: the removed element is still in
    its slot of the array, right behind the new end for [Pop] and right
    before the new start for [PopFront]. *)
Theorem Pop_PopFront_leave_slot h a :
  wf h a -> 0 < len a ->
  (exists x a',
     Pop a h = Ok ((x, a'), h) /\
     view h a = view h a' ++ [x] /\
     array h a' !! (s_off a' + s_len a')%nat = Some x) /\
  (exists x a',
     PopFront a h = Ok ((x, a'), h) /\
     view h a = x :: view h a' /\
     (0 < s_off a')%nat /\
     array h a' !! (s_off a' - 1)%nat = Some x).
Proof.
  intros Hwf Hpos. destruct (wf_in_bounds h a Hwf) as [Hin Hmax]. split.
  - destruct (Pop_ok h a Hin) as (x & a' & Hrun & -> & Hx & Hv);
      [lia | exact Hpos |].
    exists x. eexists. split; [exact Hrun|]. split; [exact Hv|]. exact Hx.
  - destruct (PopFront_ok h a Hin Hpos) as (x & a' & Hrun & -> & Hx & Hv).
    exists x. eexists. split; [exact Hrun|]. split; [exact Hv|].
    simpl. split; [lia|].
    replace (s_off a + 1 - 1)%nat with (s_off a) by lia. exact Hx.
Qed.

Lemma Push_ok h a x :
  wf h a ->
  exists a1 h1,
    Push zero spare a x h = Ok (a1, h1) /\
    in_bounds h1 a1 /\ len a1 = len a + 1 /\
    view h1 a1 = view h a ++ [x].
Proof.
  intros Hwf. pose proof (view_length h a Hwf) as Hv.
  destruct Hwf as (Harr & Hlc & Hoc & Hmax). unfold Push.
  destruct (le_lt_dec (s_len a + 1) (s_cap a)) as [Hfit|Hgrow].
  - rewrite append_fits by (simpl; in_range).
    eexists _, _. split; [reflexivity|]. simpl.
    split; [|split; [unfold len; simpl; lia|]].
    + unfold in_bounds. simpl. rewrite length_alter.
      rewrite array_alter, decide_True by done. list_lengths.
      unfold array in *. simpl. repeat split; lia.
    + unfold view in *. simpl.
      rewrite array_alter, decide_True by done.
      unfold array in *. simpl. pointwise.
  - rewrite append_grows by (simpl; in_range).
    eexists _, _. split; [reflexivity|]. simpl.
    split; [|split; [unfold len; simpl; lia|]].
    + unfold in_bounds. simpl. rewrite array_new by done.
      list_lengths. simpl. rewrite Hv. repeat split; lia.
    + unfold view at 1. simpl. rewrite array_new by done.
      set (v := view h a) in *. pointwise.
Qed.

Lemma PushFront_ok h a x :
  wf h a ->
  exists a1 h1,
    PushFront zero spare a x h = Ok (a1, h1) /\
    in_bounds h1 a1 /\ len a1 = len a + 1 /\
    view h1 a1 = x :: view h a.
Proof.
  intros Hwf. pose proof (view_length h a Hwf) as Hv.
  destruct Hwf as (Harr & Hlc & Hoc & Hmax).
  unfold PushFront, literal, append_slice. unfold bind at 1. simpl.
  rewrite view_old by done.
  destruct (decide (s_len a = 0)%nat) as [Hz|Hnz].
  - rewrite append_fits by (simpl; in_range).
    eexists _, _. split; [reflexivity|]. simpl.
    assert (view h a = []) as -> by (apply nil_length_inv; lia).
    split; [|split; [unfold len; simpl; lia|]].
    + unfold in_bounds. simpl. rewrite length_alter, length_app.
      rewrite array_alter, decide_True by (rewrite ?length_app; simpl; lia).
      rewrite array_new by done. simpl. repeat split; lia.
    + unfold view. simpl.
      rewrite array_alter, decide_True by (rewrite ?length_app; simpl; lia).
      rewrite array_new by done. done.
  - rewrite append_grows by (simpl; in_range).
    eexists _, _. split; [reflexivity|]. simpl.
    assert (view (h ++ [[x]]) (Slice (length h) 0 1 1) = [x]) as ->.
    { unfold view. simpl. by rewrite array_new. }
    split; [|split; [unfold len; simpl; lia|]].
    + unfold in_bounds. simpl. rewrite array_new by done.
      list_lengths. simpl. rewrite Hv. repeat split; lia.
    + unfold view at 1. simpl. rewrite array_new by done.
      set (v := view h a) in *. simpl. pointwise.
Qed.

(** C9.  On a well-formed slice, [Push] followed by [Pop] returns the
    pushed element and leaves a slice with the elements the original
    had; so does [PushFront] followed by [PopFront]. *)
Theorem Push_Pop_restore h a x :
  wf h a ->
  (exists a1 h1 a2 h2,
     Push zero spare a x h = Ok (a1, h1) /\
     Pop a1 h1 = Ok ((x, a2), h2) /\
     view h2 a2 = view h a) /\
  (exists a1 h1 a2 h2,
     PushFront zero spare a x h = Ok (a1, h1) /\
     PopFront a1 h1 = Ok ((x, a2), h2) /\
     view h2 a2 = view h a).
Proof.
  intros Hwf. destruct (wf_in_bounds h a Hwf) as [_ Hmax]. split.
  - destruct (Push_ok h a x Hwf) as (a1 & h1 & Hpush & Hin & Hlen & Hv).
    destruct (Pop_ok h1 a1 Hin) as (y & a2 & Hpop & _ & _ & Hv');
      [in_range | in_range |].
    rewrite Hv in Hv'. apply app_inj_tail in Hv' as [Hv' ->].
    exists a1, h1, a2, h1. done.
  - destruct (PushFront_ok h a x Hwf)
      as (a1 & h1 & Hpush & Hin & Hlen & Hv).
    destruct (PopFront_ok h1 a1 Hin) as (y & a2 & Hpop & _ & _ & Hv');
      [unfold len in *; lia |].
    rewrite Hv in Hv'. injection Hv' as -> Hv'.
    exists a1, h1, a2, h1. done.
Qed.

End PushPop.

(** ** Expand *)

Section ExpandFacts.
Context {T : Type}.
Variable zero : T.
Variable spare : nat -> nat -> nat.
Implicit Types (h : heap T) (a s : slice).

Lemma make_ok n h :
  0 <= n <= Int.max_int ->
  make zero n h =
    Ok (Slice (length h) 0 (Z.to_nat n) (Z.to_nat n),
        h ++ [replicate (Z.to_nat n) zero]).
Proof.
  intros [H1 H2]. unfold make.
  by rewrite (proj2 (Z.leb_le 0 n)), (proj2 (Z.leb_le n Int.max_int)).
Qed.

Lemma view_prefix h a (i : nat) :
  in_bounds h a -> (i <= s_len a)%nat ->
  view h (Slice (s_arr a) (s_off a) i (s_cap a)) = take i (view h a).
Proof.
  intros (Harr & Hlc & Hoc) Hi. unfold view, array. simpl. pointwise.
Qed.

Lemma view_suffix h a (i : nat) :
  in_bounds h a -> (i <= s_len a)%nat ->
  view h (Slice (s_arr a) (s_off a + i) (s_len a - i) (s_cap a - i)) =
    drop i (view h a).
Proof.
  intros (Harr & Hlc & Hoc) Hi. unfold view, array. simpl. pointwise.
Qed.

(** What [Expand] leaves: the first [i] elements, [n] zero values, the
    rest. *)
Lemma Expand_ok h a i n :
  wf h a -> 0 <= i <= len a -> 0 <= n -> len a + n <= Int.max_int ->
  exists a' h',
    Expand zero spare a i n h = Ok (a', h') /\
    view h' a' =
      take (Z.to_nat i) (view h a) ++ replicate (Z.to_nat n) zero ++
      drop (Z.to_nat i) (view h a) /\
    len a' = len a + n.
Proof.
  intros Hwf Hi Hn Hsum.
  destruct (wf_in_bounds h a Hwf) as [Hin Hlmax].
  pose proof Hin as (Harr & Hlc & Hoc).
  unfold Expand, slice_to, slice_from.
  step reslice_ok.
  erewrite bind_ok by (apply make_ok; in_range).
  step reslice_ok.
  change (Z.to_nat 0) with 0%nat.
  rewrite Nat.add_0_r, Nat.sub_0_r, Z.sub_0_r.
  replace (Z.to_nat (len a - i)) with (s_len a - Z.to_nat i)%nat by in_range.
  set (k := Z.to_nat i) in *. set (m := Z.to_nat n) in *.
  assert (k <= s_len a)%nat as Hk by (subst k; in_range).
  set (h1 := h ++ [replicate m zero]).
  set (z := Slice (length h) 0 m m).
  set (tl := Slice (s_arr a) (s_off a + k) (s_len a - k) (s_cap a - k)).
  set (pre := Slice (s_arr a) (s_off a) k (s_cap a)).
  assert (view h1 tl = drop k (view h a)) as Htl.
  { subst h1 tl. rewrite view_old by done. by apply view_suffix. }
  assert (length (view h1 tl) = (s_len a - k)%nat) as Htll.
  { rewrite Htl, length_drop, (view_length_in h a Hin). done. }
  assert (in_bounds h1 z) as Hinz.
  { subst h1 z. unfold in_bounds. simpl. rewrite array_new by done.
    list_lengths. simpl. repeat split; lia. }
  assert (view h1 z = replicate m zero) as Hz.
  { subst h1 z. unfold view. simpl. rewrite array_new by done.
    rewrite take_ge by (list_lengths; lia). done. }
  destruct (append_spec zero spare z (view h1 tl) h1 Hinz)
    as (t & h2 & Hrun & Hvt & Hlt & Hint & Hlh & Hframe).
  { subst z. simpl. rewrite Htll. in_range. }
  erewrite bind_ok by (unfold append_slice; exact Hrun).
  assert (array h2 a = array h a) as HA.
  { rewrite Hframe; subst h1 z; simpl.
    - by apply array_old.
    - rewrite length_app. simpl. lia.
    - lia. }
  assert (in_bounds h2 pre) as Hinp.
  { unfold in_bounds, array in *. subst pre h1. simpl in *.
    rewrite length_app in Hlh. simpl in Hlh. rewrite HA.
    repeat split; lia. }
  assert (view h2 pre = take k (view h a)) as Hpre.
  { transitivity (take k (view h2 a)).
    - subst pre. apply view_prefix; [|done].
      unfold in_bounds, array in *. subst h1. simpl in *.
      rewrite length_app in Hlh. simpl in Hlh. rewrite HA.
      repeat split; lia.
    - unfold view. by rewrite HA. }
  assert (length (view h2 t) = (m + (s_len a - k))%nat) as Htlen.
  { rewrite Hvt, Hz, length_app, length_replicate, Htll. done. }
  destruct (append_spec zero spare pre (view h2 t) h2 Hinp)
    as (a' & h3 & Hrun' & Hva & Hla & _).
  { subst pre. simpl. rewrite Htlen. in_range. }
  unfold append_slice. rewrite Hrun'.
  exists a', h3. split; [reflexivity|]. split.
  - by rewrite Hva, Hpre, Hvt, Hz, Htl.
  - unfold len. rewrite Hla, Htlen. subst pre k m. simpl. in_range.
Qed.

(** C3, amended.  For [0 <= i <= len(s)] and [n >= 0], with
    [len(s) + n] still an [int], [Expand] puts [n] zero values right
    before index [i], that is behind the first [i] elements: the slice
    becomes [s[:i] ++ zeros ++ s[i:]], longer by [n], with the
    elements on both sides unchanged and in order, and [n = 0] changes
    nothing. *)
Theorem Expand_before_index h a i n :
  wf h a -> 0 <= i <= len a -> 0 <= n -> len a + n <= Int.max_int ->
  exists a' h',
    Expand zero spare a i n h = Ok (a', h') /\
    view h' a' =
      take (Z.to_nat i) (view h a) ++ replicate (Z.to_nat n) zero ++
      drop (Z.to_nat i) (view h a) /\
    len a' = len a + n /\
    (n = 0 -> view h' a' = view h a).
Proof.
  intros Hwf Hi Hn Hsum.
  destruct (Expand_ok h a i n Hwf Hi Hn Hsum)
    as (a' & h' & Hrun & Hview & Hlen).
  exists a', h'. repeat split; try done.
  intros ->. rewrite Hview. simpl. apply take_drop.
Qed.

End ExpandFacts.

(** ** SlidingWindow *)

Section WindowFacts.
Context {T : Type}.
Implicit Types (h : heap T) (a s : slice).

(** The header of the window that starts at offset [j]. *)
#[local] Abbreviation window a sz :=
  (fun j : nat => Slice (s_arr a) (s_off a + j) sz (s_cap a - j)).

(** [k] more windows from offset [i] on, with enough fuel for them. *)
Lemma window_loop a (sz : nat) h (k : nat) : forall (i : nat) r fuel,
  (s_len a <= s_cap a)%nat -> len a < Int.max_int ->
  (i + sz + k = s_len a + 1)%nat -> (k <= fuel)%nat ->
  while fuel
    (fun '(_, j, _) => j <=? len a)
    (fun '(i, j, r) =>
       w <- reslice a i j ;;
       ret (Int.add i 1, Int.add j 1, r ++ [w]))
    (Z.of_nat i, Z.of_nat (i + sz), r) h =
  Ok ((Z.of_nat (i + k), Z.of_nat (i + sz + k),
       r ++ map (window a sz) (seq i k)), h).
Proof.
  induction k as [|k IH]; intros i r fuel Hlc Hmax Hk Hfuel.
  - assert ((Z.of_nat (i + sz) <=? len a) = false) as Hc
      by (apply Z.leb_gt; unfold len; lia).
    destruct fuel; simpl; rewrite Hc; unfold ret;
      by rewrite !Nat.add_0_r, app_nil_r.
  - assert ((Z.of_nat (i + sz) <=? len a) = true) as Hc
      by (apply Z.leb_le; unfold len; lia).
    destruct fuel as [|fuel]; [lia|]. simpl. rewrite Hc.
    erewrite bind_ok; cycle 1.
    { step reslice_ok. reflexivity. }
    rewrite !add_small by in_range.
    replace (Z.of_nat i + 1) with (Z.of_nat (S i)) by lia.
    replace (Z.of_nat (i + sz) + 1) with (Z.of_nat (S i + sz)) by lia.
    rewrite IH by (try done; lia).
    rewrite Nat2Z.id.
    replace (Z.to_nat (Z.of_nat (i + sz) - Z.of_nat i)) with sz by lia.
    rewrite <- app_assoc. simpl.
    repeat f_equal; lia.
Qed.

Lemma view_window h a (sz j : nat) :
  in_bounds h a -> (j + sz <= s_len a)%nat ->
  view h (window a sz j) = take sz (drop j (view h a)).
Proof.
  intros (Harr & Hlc & Hoc) Hj. unfold view, array. simpl. pointwise.
Qed.

(** C8.  With [size >= 1] on a well-formed slice, and fuel for at least
    [len(s)] iterations, [SlidingWindow] returns without touching the
    heap: nothing for an empty slice; the slice itself, once, when
    [0 < len(s) <= size]; and when [len(s) > size] the
    [len(s) - size + 1] windows [s[i:i+size]] for [i = 0, 1, ...], in
    this order. *)
Theorem SlidingWindow_windows h a size fuel :
  wf h a -> 1 <= size -> (s_len a <= fuel)%nat ->
  exists ws,
    SlidingWindow fuel a size h = Ok (ws, h) /\
    (len a = 0 -> ws = []) /\
    (0 < len a <= size -> ws = [a]) /\
    (size < len a ->
       length ws = Z.to_nat (len a - size + 1) /\
       map (view h) ws =
         map (fun i => take (Z.to_nat size) (drop i (view h a)))
             (seq 0 (Z.to_nat (len a - size + 1)))).
Proof.
  intros Hwf Hsize Hfuel.
  destruct (wf_in_bounds h a Hwf) as [Hin Hmax].
  pose proof Hin as (Harr & Hlc & Hoc).
  destruct (Z_of_nat_complete size) as [sz ->]; [lia|].
  rewrite Nat2Z.id. unfold SlidingWindow.
  destruct (Z.eqb_spec (len a) 0) as [Hz|Hnz].
  { exists []. unfold ret. repeat split; try done; lia. }
  destruct (Z.leb_spec (len a) (Z.of_nat sz)) as [Hle|Hgt].
  { exists [a]. unfold ret, len in *. repeat split; try done; lia. }
  unfold make_headers. rewrite !sub_small, !add_small by in_range.
  destruct (Z.leb_spec 0 (len a - Z.of_nat sz + 1)) as [_|]; [|lia].
  simpl. unfold bind at 1, ret at 1. simpl.
  change (Z.of_nat sz) with (Z.of_nat (0 + sz)) at 3.
  change 0 with (Z.of_nat 0) at 1.
  erewrite bind_ok; cycle 1.
  { apply (window_loop a sz h (s_len a - sz + 1) 0 [] fuel); try done.
    - unfold len in *. lia.
    - unfold len in *. lia. }
  unfold ret. eexists. split; [reflexivity|].
  unfold len in *. split; [lia|]. split; [lia|]. intros _.
  replace (Z.to_nat (Z.of_nat (s_len a) - Z.of_nat sz + 1))
    with (s_len a - sz + 1)%nat by lia.
  simpl. split.
  - by rewrite length_map, length_seq.
  - rewrite map_map. apply map_ext_in. intros j Hj.
    apply in_seq in Hj. apply view_window; [done|lia].
Qed.

End WindowFacts.

(** ** Batches *)

Section BatchFacts.
Context {T : Type}.
Implicit Types (h : heap T) (a s : slice).

(** What is left of [a] from offset [j] on, and the batch that starts
    at offset [p]. *)
#[local] Abbreviation suffix a :=
  (fun j : nat => Slice (s_arr a) (s_off a + j) (s_len a - j) (s_cap a - j)).

#[local] Abbreviation batch a bs :=
  (fun p : nat => Slice (s_arr a) (s_off a + p) bs bs).

(** [m] full batches are cut off, with enough fuel for them, and what is
    left then stops the loop. *)
Lemma batch_loop a (bs : nat) h (m : nat) : forall (j : nat) r fuel,
  (1 <= bs)%nat -> (s_len a <= s_cap a)%nat ->
  (j + m * bs < s_len a)%nat -> (s_len a <= j + m * bs + bs)%nat ->
  (m <= fuel)%nat ->
  while fuel
    (fun '(a, _) => Z.of_nat bs <? len a)
    (fun '(a, batches) =>
       a' <- slice_from a (Z.of_nat bs) ;;
       b <- reslice3 a 0 (Z.of_nat bs) (Z.of_nat bs) ;;
       ret (a', batches ++ [b]))
    (suffix a j, r) h =
  Ok ((suffix a (j + m * bs)%nat,
       r ++ map (fun q => batch a bs (j + q * bs)%nat) (seq 0 m)), h).
Proof.
  induction m as [|m IH]; intros j r fuel Hbs Hlc Hlo Hhi Hfuel.
  - assert ((Z.of_nat bs <? len (suffix a j)) = false) as Hc
      by (apply Z.ltb_ge; unfold len; simpl; lia).
    destruct fuel; simpl while; rewrite Hc; unfold ret;
      by rewrite !Nat.add_0_r, app_nil_r.
  - assert ((Z.of_nat bs <? len (suffix a j)) = true) as Hc
      by (apply Z.ltb_lt; unfold len; simpl; lia).
    destruct fuel as [|fuel]; [lia|]. simpl while. rewrite Hc.
    erewrite bind_ok; cycle 1.
    { unfold slice_from. step reslice_ok.
      unfold reslice3.
      rewrite (proj2 (Z.leb_le 0 0)), !(proj2 (Z.leb_le 0 (Z.of_nat bs))),
        (proj2 (Z.leb_le (Z.of_nat bs) (Z.of_nat bs))),
        (proj2 (Z.leb_le (Z.of_nat bs) (cap (suffix a j))))
        by (unfold cap; simpl; lia).
      simpl. unfold bind, ret. reflexivity. }
    simpl s_arr. simpl s_off. simpl s_len. simpl s_cap.
    replace (Z.to_nat (len (suffix a j) - Z.of_nat bs))
      with (s_len a - (j + bs))%nat by (unfold len; simpl; lia).
    rewrite !Nat2Z.id.
    replace (s_off a + j + bs)%nat with (s_off a + (j + bs))%nat by lia.
    replace (s_cap a - j - bs)%nat with (s_cap a - (j + bs))%nat by lia.
    rewrite IH by (try done; lia).
    change (Z.to_nat 0) with 0%nat. rewrite Z.sub_0_r, !Nat2Z.id.
    rewrite <- app_assoc. simpl.
    rewrite <- seq_shift, map_map.
    do 3 f_equal.
    { f_equal; lia. }
    do 2 f_equal.
    { f_equal; lia. }
    apply map_ext. intros q. f_equal; lia.
Qed.

Lemma view_batch h a (bs p : nat) :
  in_bounds h a -> (p + bs <= s_len a)%nat ->
  view h (batch a bs p) = take bs (drop p (view h a)).
Proof.
  intros (Harr & Hlc & Hoc) Hj. unfold view, array. simpl. pointwise.
Qed.

Lemma view_rest h a (j : nat) :
  in_bounds h a -> (j <= s_len a)%nat ->
  view h (suffix a j) = drop j (view h a).
Proof.
  intros (Harr & Hlc & Hoc) Hj. unfold view, array. simpl. pointwise.
Qed.

(** Consecutive chunks put back together. *)
Lemma chunks_concat (v : list T) (bs m : nat) :
  concat (map (fun q => take bs (drop (q * bs) v)) (seq 0 m)) =
    take (m * bs) v.
Proof.
  induction m as [|m IH]; [done|].
  rewrite seq_S, map_app, concat_app, IH. simpl.
  rewrite app_nil_r, take_take_drop. f_equal. lia.
Qed.

(** Rounding up, the way the capacity hint is written. *)
Lemma ceil_div (n bs : nat) :
  (1 <= n)%nat -> (1 <= bs)%nat ->
  Z.quot (Z.of_nat n + Z.of_nat bs - 1) (Z.of_nat bs) =
    Z.of_nat ((n - 1) / bs + 1).
Proof.
  intros Hn Hbs. rewrite Z.quot_div_nonneg by lia.
  replace (Z.of_nat n + Z.of_nat bs - 1)
    with (Z.of_nat (n - 1) + 1 * Z.of_nat bs) by lia.
  rewrite Z.div_add by lia. rewrite Nat2Z.inj_add, Nat2Z.inj_div. done.
Qed.

(** X28.  While [len(a) + batchSize - 1] stays an [int], [Batches] does
    what its comment says: consecutive batches of exactly [batchSize]
    elements and a last one of 1 to [batchSize], which put together give
    the slice back; their number is [len(a) / batchSize] rounded up, and
    an empty slice has no batch. *)
Lemma Batches_ok h a batchSize fuel :
  wf h a -> 1 <= batchSize -> len a + batchSize - 1 <= Int.max_int ->
  (s_len a <= fuel)%nat ->
  exists bl,
    Batches fuel a batchSize h = Ok (bl, h) /\
    concat (map (view h) bl) = view h a /\
    Z.of_nat (length bl) = (len a + batchSize - 1) / batchSize /\
    (len a = 0 -> bl = []) /\
    (forall i b, bl !! i = Some b ->
       1 <= len b <= batchSize /\
       ((i + 1 < length bl)%nat -> len b = batchSize)).
Proof.
  intros Hwf Hbs Hov Hfuel.
  destruct (wf_in_bounds h a Hwf) as [Hin Hmax].
  pose proof Hin as (Harr & Hlc & Hoc).
  pose proof (view_length_in h a Hin) as Hv.
  destruct (Z_of_nat_complete batchSize) as [bs ->]; [lia|].
  unfold Batches.
  destruct (Z.eqb_spec (len a) 0) as [Hz|Hnz].
  { exists []. unfold ret, len in *. split; [done|].
    assert (view h a = []) as -> by (apply nil_length_inv; lia).
    split; [done|]. split.
    - simpl. rewrite Hz. simpl. symmetry. apply Z.div_small. lia.
    - split; [done|]. intros i b Hb. by rewrite lookup_nil in Hb. }
  destruct (Z.eqb_spec (Z.of_nat bs) 0) as [|_]; [lia|].
  rewrite sub_add_small by in_range.
  unfold Int.quot. unfold len in *.
  rewrite (ceil_div (s_len a) bs) by lia.
  set (m := ((s_len a - 1) / bs)%nat).
  assert (m * bs < s_len a /\ s_len a <= m * bs + bs)%nat as [Hlo Hhi].
  { subst m. pose proof (Nat.div_mod_eq (s_len a - 1) bs).
    pose proof (Nat.mod_upper_bound (s_len a - 1) bs). nia. }
  rewrite wrap_small by (assert (m <= s_len a)%nat by nia; in_range).
  erewrite bind_ok; cycle 1.
  { unfold make_headers.
    rewrite (proj2 (Z.leb_le 0 0)), (proj2 (Z.leb_le 0 _)) by lia.
    reflexivity. }
  change (Z.to_nat 0) with 0%nat. simpl replicate.
  pose proof (batch_loop a bs h m 0 [] fuel) as Hloop.
  cbv beta in Hloop. rewrite Nat.add_0_r, !Nat.sub_0_r in Hloop.
  replace (Slice (s_arr a) (s_off a) (s_len a) (s_cap a)) with a in Hloop
    by (by destruct a).
  unfold len in Hloop.
  erewrite bind_ok by (apply Hloop; try done; try lia; nia).
  unfold ret. eexists. split; [reflexivity|]. simpl.
  split; [|split; [|split]].
  - rewrite map_app, concat_app, map_map. simpl. rewrite app_nil_r.
    rewrite view_rest by (done || lia).
    erewrite map_ext_in; cycle 1.
    { intros q Hq. apply in_seq in Hq.
      apply (view_batch h a bs (q * bs)); [done|nia]. }
    rewrite chunks_concat. apply take_drop.
  - rewrite length_app, length_map, length_seq. simpl.
    subst m. rewrite <- (ceil_div (s_len a) bs) by lia.
    rewrite Z.quot_div_nonneg by lia. done.
  - lia.
  - intros i b Hb. rewrite length_app, length_map, length_seq. simpl.
    rewrite lookup_app_dec, length_map, length_seq in Hb.
    destruct (decide (i < m)%nat) as [Hi|Hi].
    + rewrite list_lookup_fmap, lookup_seq_lt in Hb by done.
      simpl in Hb. injection Hb as <-. unfold len. simpl. lia.
    + destruct (i - m)%nat eqn:E; [|by simpl in Hb].
      simpl in Hb. injection Hb as <-. unfold len. simpl. lia.
Qed.

End BatchFacts.

(** ** InsertMany *)

Section InsertFacts.
Context {T : Type}.
Variable zero : T.
Implicit Types (h : heap T) (a s elems : slice).

(** A copy into the array allocated last, from a slice of an older
    array. *)
Lemma copy_fresh h (X : list T) dst src :
  s_arr dst = length h -> (s_arr src < length h)%nat ->
  copy dst src (h ++ [X]) =
    Ok (Z.of_nat (Nat.min (s_len dst) (s_len src)),
        h ++ [list_inserts (s_off dst)
                (take (Nat.min (s_len dst) (s_len src)) (view h src)) X]).
Proof.
  intros Hd Hs. unfold copy, put. rewrite view_old by done.
  rewrite Hd. replace (length h) with (length h + 0)%nat at 1 by lia.
  by rewrite alter_app_r.
Qed.

(** The reallocating path is the one the comment of [InsertMany]
    describes: whenever the capacity is too small, the new slice holds
    the first [i] elements, the inserted ones, and the rest. *)
Lemma InsertMany_realloc_ok h a i elems :
  wf h a -> in_bounds h elems -> 0 <= i <= len a ->
  cap a < len a + len elems -> len a + len elems <= Int.max_int ->
  exists a' h',
    InsertMany zero a i elems h = Ok (a', h') /\
    view h' a' =
      take (Z.to_nat i) (view h a) ++ view h elems ++
      drop (Z.to_nat i) (view h a).
Proof.
  intros Hwf Hine Hi Hcap Hsum.
  destruct (wf_in_bounds h a Hwf) as [Hin Hmax].
  pose proof (view_length_in h a Hin) as Hv.
  pose proof (view_length_in h elems Hine) as Hve.
  pose proof Hin as (Harr & Hlc & Hoc).
  pose proof Hine as (Harre & Hlce & Hoce).
  unfold InsertMany. rewrite !add_small by in_range.
  destruct (Z.leb_spec (len a + len elems) (cap a)) as [|_]; [lia|].
  destruct (Z_of_nat_complete i) as [k ->]; [lia|].
  rewrite Nat2Z.id. unfold len, cap in *.
  rewrite <- !Nat2Z.inj_add.
  erewrite bind_ok by (apply make_ok; in_range).
  rewrite Nat2Z.id.
  unfold slice_to, slice_from.
  step reslice_ok.
  erewrite bind_ok by (by apply copy_fresh).
  step reslice_ok.
  erewrite bind_ok by (by apply copy_fresh).
  step reslice_ok. step reslice_ok.
  erewrite bind_ok by (by apply copy_fresh).
  unfold ret. eexists _, _. split; [reflexivity|].
  unfold view at 1. rewrite array_new by done.
  simpl. change (Z.to_nat 0) with 0%nat.
  rewrite !Nat.add_0_r, !Nat.sub_0_r, !Z.sub_0_r, !Nat2Z.id.
  unfold len. simpl.
  replace (Z.to_nat (Z.of_nat (s_len a) - Z.of_nat k))
    with (s_len a - k)%nat by lia.
  rewrite (view_prefix h a k), (view_suffix h a k) by (done || lia).
  set (v := view h a) in *. set (ve := view h elems) in *.
  to_nat_simpl. pointwise.
Qed.

(** Within capacity the result is the intended one only under two more
    conditions: the tail [s[i:]] has at most [len(elems) + 1] elements,
    and the capacity reaches [i + len(elems) + 1].  (The inserted elements
    are taken from another array, as in a call with explicit arguments.) *)
Lemma InsertMany_in_place_ok h a i elems :
  wf h a -> in_bounds h elems -> s_arr elems <> s_arr a ->
  0 <= i <= len a -> len a + len elems <= cap a ->
  len a - i <= len elems + 1 -> i + len elems + 1 <= cap a ->
  exists a' h',
    InsertMany zero a i elems h = Ok (a', h') /\
    view h' a' =
      take (Z.to_nat i) (view h a) ++ view h elems ++
      drop (Z.to_nat i) (view h a).
Proof.
  intros Hwf Hine Hne Hi Hfit Htail Hcap.
  destruct (wf_in_bounds h a Hwf) as [Hin Hmax].
  pose proof (view_length_in h elems Hine) as Hve.
  pose proof Hin as (Harr & Hlc & Hoc).
  pose proof Hine as (Harre & Hlce & Hoce).
  destruct Hwf as (_ & _ & _ & Hamax).
  unfold InsertMany. rewrite !add_small by in_range.
  destruct (Z.leb_spec (len a + len elems) (cap a)) as [_|]; [|lia].
  destruct (Z_of_nat_complete i) as [k ->]; [lia|].
  rewrite Nat2Z.id. unfold len, cap in *.
  unfold slice_to, slice_from.
  step reslice_ok. step reslice_ok. step reslice_ok.
  unfold copy at 1. unfold bind at 1.
  step reslice_ok.
  unfold copy at 1. unfold bind at 1. unfold ret.
  eexists _, _. split; [reflexivity|].
  unfold put, len, view. simpl.
  rewrite !array_alter by (rewrite ?length_alter; done).
  simpl.
  rewrite ?(decide_True (P := s_arr a = s_arr a)) by done.
  rewrite ?(decide_False (P := s_arr a = s_arr elems)) by congruence.
  unfold view, array in *. simpl.
  set (A := default [] (h !! s_arr a)) in *.
  set (E := default [] (h !! s_arr elems)) in *.
  change (Z.to_nat 0) with 0%nat.
  rewrite !Nat.add_0_r, !Z.sub_0_r.
  unfold Int.max_int in *. to_nat_simpl. pointwise.
Qed.

End InsertFacts.


(** ** SortAndDeduplicate on a non-empty slice *)

Section ViewLevel.
Context {T : Type}.
Implicit Types (h : heap T) (a : slice) (v : list T).

Lemma index_view h a (i : nat) x :
  in_bounds h a -> view h a !! i = Some x ->
  index a (Z.of_nat i) h = Ok (x, h).
Proof.
  intros (Harr & Hlc & Hoc) Hx. rewrite view_lookup in Hx.
  destruct (decide (i < s_len a)%nat); [|done].
  apply index_ok; [unfold len; lia|]. by rewrite Nat2Z.id.
Qed.

Lemma assign_view h a (i : nat) x :
  in_bounds h a -> (i < s_len a)%nat ->
  exists h',
    assign a (Z.of_nat i) x h = Ok (tt, h') /\
    in_bounds h' a /\
    view h' a = <[i := x]> (view h a).
Proof.
  intros (Harr & Hlc & Hoc) Hi.
  rewrite assign_ok by (unfold len; lia). rewrite Nat2Z.id.
  eexists. split; [reflexivity|]. split.
  - unfold in_bounds. rewrite length_alter.
    rewrite array_alter, decide_True by done. by rewrite length_insert.
  - unfold view. rewrite array_alter, decide_True by done.
    unfold array in *. pointwise.
Qed.


End ViewLevel.

Section SortSim.
Context {T : Type} `{EqDecision T}.
Variable lt : T -> T -> bool.
Implicit Types (h : heap T) (a : slice) (r rest : list T).











End SortSim.

Section SortProps.
Context {T : Type} `{EqDecision T}.
Variable lt : T -> T -> bool.
Implicit Types (r v l out rest : list T).




(** Elements of the same rank keep the order they had. *)
Section Stable.
Hypothesis lt_cotrans :
  forall x y z, lt x z = true -> lt x y = true \/ lt y z = true.

Lemma sink_filter c x r :
  List.filter (same_rank lt c) (sink lt x r) =
    List.filter (same_rank lt c) [x] ++ List.filter (same_rank lt c) r.
Proof.
  induction r as [|y r IH]; [simpl; by rewrite app_nil_r|]. simpl sink.
  destruct (lt x y) eqn:Hxy;
    [|simpl; by destruct (same_rank lt c x)].
  simpl. rewrite IH. simpl.
  destruct (same_rank lt c x) eqn:Hx, (same_rank lt c y) eqn:Hy; try done.
  exfalso. unfold same_rank in *.
  apply andb_prop in Hx as [Hx1 Hx2]. apply andb_prop in Hy as [Hy1 Hy2].
  apply negb_true_iff in Hx1, Hx2, Hy1, Hy2.
  destruct (lt_cotrans x c y Hxy); congruence.
Qed.

Lemma sort_fold_filter c v : forall r,
  List.filter (same_rank lt c) (fold_left (fun r x => sink lt x r) v r) =
    rev (List.filter (same_rank lt c) v) ++ List.filter (same_rank lt c) r.
Proof.
  induction v as [|x v IH]; intros r; [done|].
  simpl fold_left. rewrite IH, sink_filter. simpl.
  destruct (same_rank lt c x); simpl; [|done]. by rewrite <- app_assoc.
Qed.

Lemma stable_sort_stable c v :
  List.filter (same_rank lt c) (stable_sort lt v) =
    List.filter (same_rank lt c) v.
Proof.
  unfold stable_sort. rewrite List.filter_rev, sort_fold_filter.
  simpl. by rewrite app_nil_r, rev_involutive.
Qed.

Hypothesis lt_asym : forall x y, lt x y = true -> lt y x = false.





End Stable.









End SortProps.



(** ** The theorems on concrete slices *)

Lemma wf_x0123 : wf heap0123 x0123.
Proof. unfold wf, Int.max_int. simpl. lia. Defined.

(** C3 as the specification words it, after index [i]: on [[1, 2, 3]]
    with [i = 1] and [n = 1] that would be [[1, 2, 0, 3]]; the code
    returns [[1, 0, 2, 3]]. *)
Lemma Expand_not_after_index :
  exists a' h',
    Expand 0 doubling (Slice 0 0 3 3) 1 1 [[1; 2; 3]] = Ok (a', h') /\
    view h' a' = [1; 0; 2; 3] /\
    view h' a' <>
      take (Z.to_nat (1 + 1)) (view [[1; 2; 3]] (Slice 0 0 3 3)) ++
      replicate (Z.to_nat 1) 0 ++
      drop (Z.to_nat (1 + 1)) (view [[1; 2; 3]] (Slice 0 0 3 3)).
Proof.
  eexists _, _. split; [vm_compute; reflexivity|].
  split; [reflexivity|]. vm_compute. discriminate.
Qed.

Lemma Expand_before_index_witness :
  wf heap0123 x0123 /\ 0 <= 2 <= len x0123 /\ 0 <= 3 /\
  len x0123 + 3 <= Int.max_int /\
  exists a' h',
    Expand 0 doubling x0123 2 3 heap0123 = Ok (a', h') /\
    view h' a' =
      take (Z.to_nat 2) (view heap0123 x0123) ++ replicate (Z.to_nat 3) 0 ++
      drop (Z.to_nat 2) (view heap0123 x0123) /\
    len a' = len x0123 + 3 /\
    (3 = 0 -> view h' a' = view heap0123 x0123).
Proof.
  assert (0 <= 2 <= len x0123) as H1 by (unfold len, x0123; simpl; lia).
  assert (0 <= 3) as H2 by lia.
  assert (len x0123 + 3 <= Int.max_int) as H3
    by (unfold len, x0123, Int.max_int; simpl; lia).
  repeat (split; [assumption || exact wf_x0123|]).
  exact (Expand_before_index 0 doubling heap0123 x0123 2 3 wf_x0123 H1 H2 H3).
Defined.

Lemma Cut_Delete_concat_witness :
  wf heap0123 x0123 /\
  (0 <= 1 <= 3 /\ 3 <= len x0123) /\
  (exists a' h',
     Cut 0 x0123 1 3 heap0123 = Ok (a', h') /\
     view h' a' =
       take (Z.to_nat 1) (view heap0123 x0123) ++
       drop (Z.to_nat 3) (view heap0123 x0123) /\
     len a' = len x0123 - (3 - 1)) /\
  0 <= 2 < len x0123 /\
  (exists a' h',
     Delete 0 x0123 2 heap0123 = Ok (a', h') /\
     view h' a' =
       take (Z.to_nat 2) (view heap0123 x0123) ++
       drop (Z.to_nat (2 + 1)) (view heap0123 x0123) /\
     len a' = len x0123 - 1).
Proof.
  assert (0 <= 1 <= 3) as H1 by lia.
  assert (3 <= len x0123) as H2 by (unfold len, x0123; simpl; lia).
  assert (0 <= 2 < len x0123) as H3 by (unfold len, x0123; simpl; lia).
  destruct (Cut_Delete_concat 0 heap0123 x0123 wf_x0123) as [HC HD].
  split; [exact wf_x0123|]. split; [by split|].
  split; [exact (HC 1 3 H1 H2)|]. split; [exact H3|]. exact (HD 2 H3).
Defined.

Lemma Filter_family_agree_witness :
  wf heap0123 x0123 /\
  let kept := List.filter Z.even (view heap0123 x0123) in
  (exists a' h',
     PartA.Filter x0123 Z.even heap0123 = Ok (a', h') /\ view h' a' = kept) /\
  (exists a' h',
     PartB.Filter 0 x0123 Z.even heap0123 = Ok (a', h') /\
     view h' a' = kept) /\
  (exists a' h',
     PartB.FilterNoGC x0123 Z.even heap0123 = Ok (a', h') /\
     view h' a' = kept) /\
  (exists a' h',
     FilterZeroAllocNoGC 0 doubling x0123 Z.even heap0123 = Ok (a', h') /\
     view h' a' = kept) /\
  (exists a' h',
     FilterZeroAlloc 0 doubling x0123 Z.even heap0123 = Ok (a', h') /\
     view h' a' = kept).
Proof.
  split; [exact wf_x0123|].
  exact (Filter_family_agree 0 doubling Z.even heap0123 x0123 wf_x0123).
Defined.

Lemma SlidingWindow_windows_witness :
  wf heap0123 x0123 /\ 1 <= 3 /\ (s_len x0123 <= 4)%nat /\
  exists ws,
    SlidingWindow 4 x0123 3 heap0123 = Ok (ws, heap0123) /\
    (len x0123 = 0 -> ws = []) /\
    (0 < len x0123 <= 3 -> ws = [x0123]) /\
    (3 < len x0123 ->
       length ws = Z.to_nat (len x0123 - 3 + 1) /\
       map (view heap0123) ws =
         map (fun i => take (Z.to_nat 3) (drop i (view heap0123 x0123)))
             (seq 0 (Z.to_nat (len x0123 - 3 + 1)))).
Proof.
  assert (1 <= 3) as H1 by lia.
  assert (s_len x0123 <= 4)%nat as H2 by (simpl; lia).
  split; [exact wf_x0123|]. split; [exact H1|]. split; [exact H2|].
  exact (SlidingWindow_windows heap0123 x0123 3 4 wf_x0123 H1 H2).
Defined.

Lemma Push_Pop_restore_witness :
  wf heap0123 x0123 /\
  (exists a1 h1 a2 h2,
     Push 0 doubling x0123 9 heap0123 = Ok (a1, h1) /\
     Pop a1 h1 = Ok ((9, a2), h2) /\
     view h2 a2 = view heap0123 x0123) /\
  (exists a1 h1 a2 h2,
     PushFront 0 doubling x0123 9 heap0123 = Ok (a1, h1) /\
     PopFront a1 h1 = Ok ((9, a2), h2) /\
     view h2 a2 = view heap0123 x0123).
Proof.
  split; [exact wf_x0123|].
  exact (Push_Pop_restore 0 doubling heap0123 x0123 9 wf_x0123).
Defined.

Lemma Pop_PopFront_leave_slot_witness :
  wf heap0123 x0123 /\ 0 < len x0123 /\
  (exists x a',
     Pop x0123 heap0123 = Ok ((x, a'), heap0123) /\
     view heap0123 x0123 = view heap0123 a' ++ [x] /\
     array heap0123 a' !! (s_off a' + s_len a')%nat = Some x) /\
  (exists x a',
     PopFront x0123 heap0123 = Ok ((x, a'), heap0123) /\
     view heap0123 x0123 = x :: view heap0123 a' /\
     (0 < s_off a')%nat /\
     array heap0123 a' !! (s_off a' - 1)%nat = Some x).
Proof.
  assert (0 < len x0123) as H1 by (unfold len, x0123; simpl; lia).
  split; [exact wf_x0123|]. split; [exact H1|].
  exact (Pop_PopFront_leave_slot heap0123 x0123 wf_x0123 H1).
Defined.

(** ** Where the code leaves what is claimed *)

(** C1.  [InsertMany] within capacity shifts only [len(elems) + 1]
    elements of the tail.  On [[0, 1, 2, 3, 4, 5]] with capacity 8,
    inserting [7] at index 0 leaves [[7, 0, 1, 3, 4, 5, 0]]; with capacity
    6 the same call reallocates and leaves [[7, 0, 1, 2, 3, 4, 5]].  And
    with exactly the capacity needed, inserting three elements at the end
    of a slice of four panics on the slice expression that reads the
    tail. *)
Theorem InsertMany_within_capacity :
  (exists a' h',
     InsertMany 0 (Slice 0 0 6 8) 0 (Slice 1 0 1 1)
       [[0; 1; 2; 3; 4; 5; 0; 0]; [7]] = Ok (a', h') /\
     view h' a' = [7; 0; 1; 3; 4; 5; 0]) /\
  (exists a' h',
     InsertMany 0 (Slice 0 0 6 6) 0 (Slice 1 0 1 1)
       [[0; 1; 2; 3; 4; 5]; [7]] = Ok (a', h') /\
     view h' a' = [7; 0; 1; 2; 3; 4; 5]) /\
  InsertMany 0 (Slice 0 0 4 7) 4 (Slice 1 0 3 3)
    [[0; 1; 2; 3; 0; 0; 0]; [7; 8; 9]] = Panic.
Proof.
  split; [|split].
  - eexists _, _. split; [vm_compute; reflexivity|]. reflexivity.
  - eexists _, _. split; [vm_compute; reflexivity|]. reflexivity.
  - vm_compute. reflexivity.
Qed.

(** On an empty slice nothing is sorted and nothing compared, and the
    final [a[:j+1]] asks for one element. *)
Lemma SortAndDeduplicate_empty {T : Type} `{EqDecision T}
    (h : heap T) (a : slice) less :
  s_len a = 0%nat ->
  SortAndDeduplicate a less h =
    if 1 <=? cap a
    then Ok (Slice (s_arr a) (s_off a) 1 (s_cap a), h)
    else Panic.
Proof.
  intros Hlen.
  unfold SortAndDeduplicate, SliceStable, for_lt, len. rewrite Hlen.
  simpl. unfold bind, ret. simpl.
  unfold slice_to, reslice. change (Int.add 0 1) with 1. simpl.
  destruct (1 <=? cap a); [|done].
  unfold ret. by rewrite Nat.add_0_r, Nat.sub_0_r.
Qed.

(** C2.  On the empty slice [[]int{}] (capacity 0) [SortAndDeduplicate]
    panics, and on an empty slice with spare capacity it returns a slice
    of one element, the one found in the first slot of the array: an
    empty input does not stay empty. *)
Theorem SortAndDeduplicate_empty_input :
  SortAndDeduplicate (Slice 0 0 0 0) less_int ([[]] : heap Z) = Panic /\
  (exists a' h',
     SortAndDeduplicate (Slice 0 0 0 3) less_int [[0; 0; 0]] = Ok (a', h') /\
     view h' a' = [0]).
Proof.
  split.
  - vm_compute. reflexivity.
  - eexists _, _. split; [vm_compute; reflexivity|]. reflexivity.
Qed.

(** C4.  The [Filter] of the first copy (lines 57-66) only compacts: on
    [[0, 1, 2, 3]] with the predicate "even" the slice becomes [[0, 2]]
    and the array [[0, 2, 2, 3]], so the two slots beyond the new length
    hold 2 and 3, not the zero value. *)
Theorem Filter_first_copy_leaves_slots :
  exists a' h',
    PartA.Filter x0123 Z.even heap0123 = Ok (a', h') /\
    view h' a' = [0; 2] /\
    array h' x0123 = [0; 2; 2; 3].
Proof.
  eexists _, _. split; [vm_compute; reflexivity|]. split; reflexivity.
Qed.

(** X29.  The functions that do clear: after [Cut], [Delete] and the
    [Filter] of the second copy, every slot between the new and the old
    length holds the zero value. *)
Lemma vacated_slots_cleared {T : Type} (zero : T) (h : heap T) (a : slice) :
  wf h a ->
  (forall start end_, 0 <= start <= end_ -> end_ <= len a ->
     exists a' h',
       Cut zero a start end_ h = Ok (a', h') /\
       forall k : nat, len a' <= Z.of_nat k < len a ->
         array h' a !! (s_off a + k)%nat = Some zero) /\
  (forall i, 0 <= i < len a ->
     exists a' h',
       Delete zero a i h = Ok (a', h') /\
       forall k : nat, len a' <= Z.of_nat k < len a ->
         array h' a !! (s_off a + k)%nat = Some zero) /\
  (forall keep,
     exists a' h',
       PartB.Filter zero a keep h = Ok (a', h') /\
       forall k : nat, len a' <= Z.of_nat k < len a ->
         array h' a !! (s_off a + k)%nat = Some zero).
Proof.
  intros Hwf. split; [|split].
  - intros start end_ Hse Hel.
    destruct (Cut_ok zero h a start end_ Hwf Hse Hel)
      as (a' & h' & Hrun & _ & _ & Hz).
    by exists a', h'.
  - intros i Hi.
    destruct (Delete_ok zero h a i Hwf Hi)
      as (a' & h' & Hrun & _ & Hlen & Hz).
    exists a', h'. split; [done|]. intros k Hk.
    replace k with (s_len a') by (unfold len in *; lia). done.
  - intros keep.
    destruct (FilterB_ok zero keep h a Hwf) as (a' & h' & Hrun & _ & Hz).
    exists a', h'. split; [done|]. intros k Hk. apply Hz.
    unfold len in *. lia.
Qed.

(** C7.  The capacity hint [(len(a)+batchSize-1)/batchSize] is computed
    on [int]s: for a slice of two elements and the largest [int] as batch
    size the sum wraps around, the hint is -1, and [make] panics, whatever
    the number of iterations allowed. *)
Theorem Batches_hint_overflows :
  forall fuel,
    Batches fuel (Slice 0 0 2 2) Int.max_int ([[0; 1]] : heap Z) = Panic.
Proof. intros fuel. vm_compute. reflexivity. Qed.

(** * The rest of the package

    The functions no property above speaks about ([Copy],
    [DeleteUnordered], [Extend], [Insert], [Reverse] and the four
    queries of the second copy), and what the others do at their bounds,
    to the arrays they share, and one after the other. *)

(** ** Steps seen through a slice *)

(** A sum of two lengths that leaves the range comes back negative. *)
Lemma wrap_over z :
  Int.max_int < z < 2 ^ 64 + 2 ^ 63 -> Int.wrap z = z - 2 ^ 64.
Proof.
  unfold Int.wrap, Int.max_int. intros Hz.
  rewrite <- (Z.mod_unique (z + 2 ^ 63) (2 ^ 64) 1 (z + 2 ^ 63 - 2 ^ 64));
    lia.
Qed.

Section ViewSteps.
Context {T : Type}.
Implicit Types (h : heap T) (a : slice).

(** [copy(a[p:], a[q:])] seen through [a]. *)
Lemma copy_within h a (p q : nat) :
  in_bounds h a -> (p <= s_len a)%nat -> (q <= s_len a)%nat ->
  let m := Nat.min (s_len a - p) (s_len a - q) in
  exists h',
    copy (Slice (s_arr a) (s_off a + p) (s_len a - p) (s_cap a - p))
         (Slice (s_arr a) (s_off a + q) (s_len a - q) (s_cap a - q)) h =
      Ok (Z.of_nat m, h') /\
    in_bounds h' a /\
    view h' a = list_inserts p (take m (drop q (view h a))) (view h a).
Proof.
  intros (Harr & Hlc & Hoc) Hp Hq m.
  eexists. split; [reflexivity|]. unfold put. simpl.
  split.
  - unfold in_bounds. rewrite length_alter.
    rewrite array_alter, decide_True by done. list_lengths. done.
  - unfold view at 1. rewrite array_alter, decide_True by done.
    subst m. unfold view, array in *. simpl.
    to_nat_simpl. pointwise.
Qed.

(** An assignment leaves every other array alone. *)
Lemma assign_frame h h' a i (x : T) :
  assign a i x h = Ok (tt, h') ->
  length h' = length h /\
  forall t, s_arr t <> s_arr a -> array h' t = array h t.
Proof.
  unfold assign. destruct ((0 <=? i) && (i <? len a)); [|done].
  intros [= <-]. split; [by rewrite length_alter|].
  intros t Hne. unfold array. by rewrite list_lookup_alter_ne.
Qed.

(** Clearing [n] slots from index [k] on, seen through [a]. *)
Lemma zero_fill_view (zero : T) h a (n k : nat) :
  in_bounds h a -> (k + n <= s_len a)%nat ->
  exists h',
    for_upto n (Z.of_nat k) (fun j _ => assign a j zero) tt h =
      Ok (tt, h') /\
    in_bounds h' a /\
    view h' a = list_inserts k (replicate n zero) (view h a).
Proof.
  intros Hin Hk. pose proof Hin as (Harr & Hlc & Hoc).
  rewrite zero_fill_ok by (unfold len; lia).
  eexists. split; [reflexivity|]. rewrite Nat2Z.id. split.
  - unfold in_bounds. rewrite length_alter.
    rewrite array_alter, decide_True by done. list_lengths. done.
  - unfold view. rewrite array_alter, decide_True by done.
    unfold array in *. pointwise.
Qed.

(** [a[i], a[j] = a[j], a[i]], seen through [a]. *)
Lemma exchange_view h a (i j : nat) x y :
  in_bounds h a ->
  view h a !! i = Some y -> view h a !! j = Some x ->
  exists h',
    (x <- index a (Z.of_nat j) ;;
     y <- index a (Z.of_nat i) ;;
     assign a (Z.of_nat i) x ;;;
     assign a (Z.of_nat j) y) h = Ok (tt, h') /\
    in_bounds h' a /\
    view h' a = <[j := y]> (<[i := x]> (view h a)) /\
    length h' = length h /\
    (forall t, s_arr t <> s_arr a -> array h' t = array h t).
Proof.
  intros Hin Hy Hx. pose proof (view_length_in h a Hin) as Hv.
  pose proof (lookup_lt_Some _ _ _ Hy) as Hi.
  pose proof (lookup_lt_Some _ _ _ Hx) as Hj.
  erewrite bind_ok by (by apply index_view).
  erewrite bind_ok by (by apply index_view).
  destruct (assign_view h a i x Hin) as (h1 & Hrun1 & Hin1 & Hv1); [lia|].
  erewrite bind_ok by exact Hrun1.
  destruct (assign_view h1 a j y Hin1) as (h2 & Hrun2 & Hin2 & Hv2); [lia|].
  rewrite Hrun2. exists h2. split; [done|]. split; [done|].
  split; [by rewrite Hv2, Hv1|].
  destruct (assign_frame _ _ _ _ _ Hrun1) as [Hl1 Hf1].
  destruct (assign_frame _ _ _ _ _ Hrun2) as [Hl2 Hf2].
  split; [lia|]. intros t Hne. by rewrite Hf2, Hf1.
Qed.

End ViewSteps.

(** ** The queries: All, Any, None, ContainsComparable *)

Section QueryFacts.
Context {T : Type}.
Implicit Types (h : heap T) (s elems : slice) (f : T -> bool).

(** The loop of [All] from index [i] on: it returns [false] at the first
    element that fails [f]. *)
Lemma all_loop f s h (n : nat) : forall i : nat,
  in_bounds h s -> (i + n = s_len s)%nat ->
  range_return_from s i n
    (fun _ elem => if negb (f elem) then ret (Some false) else ret None) h =
  Ok (if forallb f (drop i (view h s)) then None else Some false, h).
Proof.
  induction n as [|n IH]; intros i Hin Hlen.
  - simpl. rewrite drop_ge by (rewrite view_length_in; [lia|done]). done.
  - assert (is_Some (view h s !! i)) as [x Hx].
    { apply lookup_lt_is_Some. rewrite view_length_in by done. lia. }
    simpl. erewrite bind_ok by (by apply index_view).
    rewrite (drop_S _ _ _ Hx). simpl.
    destruct (f x); simpl; unfold bind, ret; simpl; [|done].
    apply IH; [done|lia].
Qed.

(** The loop of [Any]: it returns [true] at the first element that
    passes [f]. *)
Lemma any_loop f s h (n : nat) : forall i : nat,
  in_bounds h s -> (i + n = s_len s)%nat ->
  range_return_from s i n
    (fun _ elem => if f elem then ret (Some true) else ret None) h =
  Ok (if existsb f (drop i (view h s)) then Some true else None, h).
Proof.
  induction n as [|n IH]; intros i Hin Hlen.
  - simpl. rewrite drop_ge by (rewrite view_length_in; [lia|done]). done.
  - assert (is_Some (view h s !! i)) as [x Hx].
    { apply lookup_lt_is_Some. rewrite view_length_in by done. lia. }
    simpl. erewrite bind_ok by (by apply index_view).
    rewrite (drop_S _ _ _ Hx). simpl.
    destruct (f x); simpl; unfold bind, ret; simpl; [done|].
    apply IH; [done|lia].
Qed.

Lemma All_ok f h elems :
  in_bounds h elems ->
  PartB.All elems f h = Ok (forallb f (view h elems), h).
Proof.
  intros Hin. unfold PartB.All, range_return.
  erewrite bind_ok by (by apply all_loop).
  rewrite drop_0. by destruct (forallb f (view h elems)).
Qed.

Lemma Any_ok f h elems :
  in_bounds h elems ->
  PartB.Any elems f h = Ok (existsb f (view h elems), h).
Proof.
  intros Hin. unfold PartB.Any, range_return.
  erewrite bind_ok by (by apply any_loop).
  rewrite drop_0. by destruct (existsb f (view h elems)).
Qed.

(** X1.  [All] returns, without touching the heap, whether every
    element of the slice satisfies [f]; on an empty slice that is
    [true]. *)
Theorem All_iff f h elems :
  in_bounds h elems ->
  exists b,
    PartB.All elems f h = Ok (b, h) /\
    (b = true <-> forall x, x ∈ view h elems -> f x = true) /\
    (len elems = 0 -> b = true).
Proof.
  intros Hin. exists (forallb f (view h elems)).
  split; [by apply All_ok|]. split.
  - rewrite forallb_forall. setoid_rewrite <- list_elem_of_In. done.
  - intros H0. rewrite (nil_length_inv (view h elems)); [done|].
    rewrite view_length_in by done. unfold len in H0. lia.
Qed.

(** X2.  [Any] returns, without touching the heap, whether some element
    of the slice satisfies [f]; on an empty slice that is [false]. *)
Theorem Any_iff f h elems :
  in_bounds h elems ->
  exists b,
    PartB.Any elems f h = Ok (b, h) /\
    (b = true <-> exists x, x ∈ view h elems /\ f x = true) /\
    (len elems = 0 -> b = false).
Proof.
  intros Hin. exists (existsb f (view h elems)).
  split; [by apply Any_ok|]. split.
  - rewrite existsb_exists. setoid_rewrite <- list_elem_of_In. done.
  - intros H0. rewrite (nil_length_inv (view h elems)); [done|].
    rewrite view_length_in by done. unfold len in H0. lia.
Qed.

(** X3.  [None] answers as [All] does for the negated predicate: it is
    [true] exactly when no element satisfies [f]. *)
Theorem None_is_All_not f h elems :
  in_bounds h elems ->
  exists b,
    PartB.None elems f h = Ok (b, h) /\
    PartB.All elems (fun x => negb (f x)) h = Ok (b, h) /\
    (b = true <-> forall x, x ∈ view h elems -> f x = false).
Proof.
  intros Hin. exists (negb (existsb f (view h elems))).
  split; [|split].
  - unfold PartB.None. erewrite bind_ok by (by apply Any_ok). done.
  - rewrite All_ok by done. do 2 f_equal.
    induction (view h elems) as [|x l IH]; simpl; [done|].
    rewrite negb_orb. by rewrite IH.
  - rewrite negb_true_iff. split.
    + intros Hex x Hx. destruct (f x) eqn:Hfx; [|done].
      assert (existsb f (view h elems) = true) as Ht; [|congruence].
      apply existsb_exists. exists x. split; [by apply list_elem_of_In|done].
    + intros Hall. destruct (existsb f (view h elems)) eqn:Hex; [|done].
      apply existsb_exists in Hex as (x & Hx & Hfx).
      apply list_elem_of_In in Hx. rewrite (Hall x Hx) in Hfx. done.
Qed.


End QueryFacts.

(** ** Copy *)

Section CopyFacts.
Context {T : Type}.
Variable zero : T.
Implicit Types (h : heap T) (a b : slice).

Lemma Copy_ok h a :
  wf h a ->
  Copy zero a h =
    Ok (Slice (length h) 0 (s_len a) (s_len a), h ++ [view h a]).
Proof.
  intros Hwf. destruct (wf_in_bounds h a Hwf) as [Hin Hmax].
  pose proof (view_length_in h a Hin) as Hv.
  destruct Hin as (Harr & Hlc & Hoc).
  unfold Copy. erewrite bind_ok by (apply make_ok; in_range).
  unfold len. rewrite Nat2Z.id.
  erewrite bind_ok by (by apply copy_fresh).
  unfold ret. simpl. do 4 f_equal.
  rewrite Nat.min_id. set (v := view h a) in *. pointwise.
Qed.

(** X5.  [Copy] allocates: the slice it returns holds the elements of
    the argument in an array of its own, exactly as long as the slice,
    and every array that existed before is left as it was. *)
Theorem Copy_fresh_array h a :
  wf h a ->
  exists b h',
    Copy zero a h = Ok (b, h') /\
    view h' b = view h a /\
    s_arr b = length h /\ array h' b = view h a /\ cap b = len a /\
    (forall t, (s_arr t < length h)%nat -> array h' t = array h t).
Proof.
  intros Hwf. destruct (wf_in_bounds h a Hwf) as [Hin Hmax].
  pose proof (view_length_in h a Hin) as Hv.
  eexists _, _. split; [by apply Copy_ok|].
  split; [|split; [done|split; [by rewrite array_new|split; [done|]]]].
  - unfold view at 1. rewrite array_new by done. simpl.
    rewrite drop_0, take_ge by lia. done.
  - intros t Ht. by apply array_old.
Qed.

(** X6.  The copy and the original do not share storage: an assignment
    through either of them is not seen through the other. *)
Theorem Copy_independent h a i x :
  wf h a -> 0 <= i < len a ->
  exists b h1,
    Copy zero a h = Ok (b, h1) /\
    (exists h2,
       assign b i x h1 = Ok (tt, h2) /\
       view h2 b = <[Z.to_nat i := x]> (view h a) /\
       view h2 a = view h a) /\
    (exists h2,
       assign a i x h1 = Ok (tt, h2) /\
       view h2 a = <[Z.to_nat i := x]> (view h a) /\
       view h2 b = view h a).
Proof.
  intros Hwf Hi. destruct (wf_in_bounds h a Hwf) as [Hin Hmax].
  pose proof (view_length_in h a Hin) as Hv.
  pose proof Hin as (Harr & Hlc & Hoc).
  eexists _, _. split; [by apply Copy_ok|].
  set (b := Slice (length h) 0 (s_len a) (s_len a)).
  set (h1 := h ++ [view h a]).
  assert (in_bounds h1 b) as Hinb.
  { unfold in_bounds, h1, b. simpl. rewrite array_new by done.
    rewrite length_app. simpl. lia. }
  assert (in_bounds h1 a) as Hina.
  { unfold in_bounds, h1. rewrite array_old by done.
    rewrite length_app. simpl. lia. }
  assert (view h1 b = view h a) as Hvb.
  { unfold view at 1, h1, b. rewrite array_new by done. simpl.
    rewrite drop_0, take_ge by lia. done. }
  assert (view h1 a = view h a) as Hva by (by apply view_old).
  destruct (Z_of_nat_complete i) as [k ->]; [lia|]. rewrite Nat2Z.id.
  split.
  - destruct (assign_view h1 b k x Hinb) as (h2 & Hrun & _ & Hv2).
    { unfold b. simpl. unfold len in Hi. lia. }
    exists h2. split; [done|]. split; [by rewrite Hv2, Hvb|].
    destruct (assign_frame _ _ _ _ _ Hrun) as [_ Hfr].
    unfold view at 1. rewrite Hfr; [by rewrite <- Hva|].
    unfold b. simpl. lia.
  - destruct (assign_view h1 a k x Hina) as (h2 & Hrun & _ & Hv2).
    { unfold len in Hi. lia. }
    exists h2. split; [done|]. split; [by rewrite Hv2, Hva|].
    destruct (assign_frame _ _ _ _ _ Hrun) as [_ Hfr].
    unfold view at 1. rewrite Hfr; [by rewrite <- Hvb|].
    unfold b. simpl. lia.
Qed.

End CopyFacts.

(** ** DeleteUnordered *)

Section DeleteUnorderedFacts.
Context {T : Type}.
Variable zero : T.
Implicit Types (h : heap T) (a : slice).

(** X7.  [DeleteUnordered] with a valid index overwrites position [i]
    with the last element and drops the last position: the result is one
    shorter, holds the elements of the argument without the one at [i]
    (the order of the others changes only in that the last one moves to
    [i]), and the vacated slot holds the zero value. *)
Theorem DeleteUnordered_moves_last h a i :
  wf h a -> 0 <= i < len a ->
  exists a' h' x,
    DeleteUnordered zero a i h = Ok (a', h') /\
    last (view h a) = Some x /\
    view h' a' = take (s_len a - 1) (<[Z.to_nat i := x]> (view h a)) /\
    view h' a' ≡ₚ delete (Z.to_nat i) (view h a) /\
    len a' = len a - 1 /\
    array h' a !! (s_off a + (s_len a - 1))%nat = Some zero.
Proof.
  intros Hwf Hi. destruct (wf_in_bounds h a Hwf) as [Hin Hmax].
  pose proof (view_length_in h a Hin) as Hv.
  pose proof Hin as (Harr & Hlc & Hoc).
  destruct (Z_of_nat_complete i) as [k ->]; [lia|]. rewrite Nat2Z.id.
  assert (k < s_len a)%nat as Hk by (unfold len in Hi; lia).
  assert (is_Some (view h a !! (s_len a - 1)%nat)) as [x Hx].
  { apply lookup_lt_is_Some. lia. }
  unfold DeleteUnordered. rewrite !sub_small by in_range.
  replace (len a - 1) with (Z.of_nat (s_len a - 1)) by (unfold len; lia).
  erewrite bind_ok by (by apply index_view).
  destruct (assign_view h a k x Hin Hk) as (h1 & Hrun1 & Hin1 & Hv1).
  erewrite bind_ok by exact Hrun1.
  destruct (assign_view h1 a (s_len a - 1) zero Hin1)
    as (h2 & Hrun2 & Hin2 & Hv2); [lia|].
  erewrite bind_ok by exact Hrun2.
  unfold slice_to. rewrite reslice_ok by in_range.
  eexists _, h2, x. split; [reflexivity|].
  change (Z.to_nat 0) with 0%nat.
  rewrite Z.sub_0_r, Nat2Z.id, Nat.add_0_r, Nat.sub_0_r.
  assert (view h2 (Slice (s_arr a) (s_off a) (s_len a - 1) (s_cap a)) =
          take (s_len a - 1) (<[k := x]> (view h a))) as Hres.
  { rewrite (view_prefix h2 a) by (done || lia).
    rewrite Hv2, Hv1. by rewrite take_insert_ge by lia. }
  assert (last (view h a) = Some x) as Hlast.
  { rewrite last_lookup, Hv.
    by replace (pred (s_len a)) with (s_len a - 1)%nat by lia. }
  split; [exact Hlast|split; [exact Hres|split; [|split]]].
  - rewrite Hres. apply last_Some in Hlast as [v' Hv'].
    rewrite Hv' in *. rewrite length_app in Hv. simpl in Hv.
    replace (s_len a - 1)%nat with (length v') by lia.
    destruct (decide (k = length v')) as [->|Hne].
    + rewrite take_insert_ge, take_app_length by lia.
      rewrite delete_take_drop, take_app_length.
      rewrite drop_ge, app_nil_r by (list_lengths; lia). done.
    + rewrite insert_app_l, take_app_length' by (list_lengths; lia).
      rewrite insert_take_drop, delete_take_drop by lia.
      rewrite take_app_le, drop_app_le by lia.
      apply Permutation_app_head, Permutation_cons_append.
  - unfold len. simpl. lia.
  - pose proof (view_lookup h2 a (s_len a - 1)) as Hl.
    rewrite decide_True in Hl by lia. rewrite <- Hl, Hv2.
    apply list_lookup_insert_eq. rewrite Hv1, length_insert. lia.
Qed.

End DeleteUnorderedFacts.

(** ** Extend and Insert, and how they are undone *)

Section GrowFacts.
Context {T : Type}.
Variable zero : T.
Variable spare : nat -> nat -> nat.
Implicit Types (h : heap T) (a : slice).

(** [Extend], with what the round trip below needs of its result. *)
Lemma Extend_ok h a (k : nat) :
  wf h a -> len a + Z.of_nat k <= Int.max_int ->
  exists a' h',
    Extend zero spare a (Z.of_nat k) h = Ok (a', h') /\
    in_bounds h' a' /\
    s_len a' = (s_len a + k)%nat /\
    view h' a' = view h a ++ replicate k zero.
Proof.
  intros Hwf Hsum. destruct (wf_in_bounds h a Hwf) as [Hin Hmax].
  pose proof Hin as (Harr & Hlc & Hoc).
  unfold Extend. erewrite bind_ok by (apply make_ok; in_range).
  rewrite Nat2Z.id.
  set (h0 := h ++ [replicate k zero]).
  set (z := Slice (length h) 0 k k).
  assert (view h0 z = replicate k zero) as Hz.
  { unfold view, h0, z. rewrite array_new by done. simpl.
    rewrite drop_0, take_ge by (list_lengths; lia). done. }
  assert (in_bounds h0 a) as Hin0.
  { unfold in_bounds, h0. rewrite array_old by done.
    rewrite length_app. simpl. lia. }
  unfold append_slice. rewrite Hz.
  destruct (append_spec zero spare a (replicate k zero) h0 Hin0)
    as (a1 & h1 & Hrun & Hv1 & Hlen1 & Hin1 & _).
  { rewrite length_replicate. unfold len in *. lia. }
  rewrite length_replicate in Hlen1.
  unfold h0 in Hv1. rewrite view_old in Hv1 by done.
  by exists a1, h1.
Qed.

(** [Insert] likewise. *)
Lemma Insert_ok h a (i : nat) elem :
  wf h a -> (i <= s_len a)%nat ->
  exists a' h',
    Insert zero spare a (Z.of_nat i) elem h = Ok (a', h') /\
    in_bounds h' a' /\
    s_len a' = S (s_len a) /\
    view h' a' = take i (view h a) ++ elem :: drop i (view h a).
Proof.
  intros Hwf Hk. destruct (wf_in_bounds h a Hwf) as [Hin Hmax].
  pose proof (view_length_in h a Hin) as Hv.
  destruct (append_spec zero spare a [zero] h Hin)
    as (a1 & h1 & Hrun & Hv1 & Hlen1 & Hin1 & _).
  { simpl. unfold len in *. lia. }
  simpl in Hlen1.
  unfold Insert. erewrite bind_ok by exact Hrun.
  pose proof Hin1 as (Harr1 & Hlc1 & Hoc1).
  unfold slice_from. rewrite add_small by in_range.
  step reslice_ok. step reslice_ok.
  replace (Z.to_nat (Z.of_nat i + 1)) with (S i) by lia.
  replace (Z.to_nat (len a1 - (Z.of_nat i + 1))) with (s_len a1 - S i)%nat
    by (unfold len; lia).
  replace (Z.to_nat (len a1 - Z.of_nat i)) with (s_len a1 - i)%nat
    by (unfold len; lia).
  rewrite Nat2Z.id.
  destruct (copy_within h1 a1 (S i) i Hin1) as (h2 & Hrun2 & Hin2 & Hv2);
    [lia|lia|].
  erewrite bind_ok by exact Hrun2.
  destruct (assign_view h2 a1 i elem Hin2) as (h3 & Hrun3 & Hin3 & Hv3);
    [lia|].
  erewrite bind_ok by exact Hrun3.
  unfold ret. exists a1, h3. split; [done|]. split; [done|].
  split; [lia|].
  rewrite Hv3, Hv2, Hv1. set (v := view h a) in *.
  rewrite Hlen1. pointwise.
Qed.

(** [Delete] and [Cut] on a header that lies inside its array, the
    array being of any length. *)
Lemma Delete_view h a (i : nat) :
  in_bounds h a -> len a <= Int.max_int -> (i < s_len a)%nat ->
  exists a' h',
    Delete zero a (Z.of_nat i) h = Ok (a', h') /\
    in_bounds h' a' /\
    view h' a' = take i (view h a) ++ drop (S i) (view h a).
Proof.
  intros Hin Hmax Hi. pose proof (view_length_in h a Hin) as Hv.
  pose proof Hin as (Harr & Hlc & Hoc).
  unfold Delete, slice_from. rewrite add_small, sub_small by in_range.
  step reslice_ok. step reslice_ok.
  replace (Z.to_nat (Z.of_nat i + 1)) with (S i) by lia.
  replace (Z.to_nat (len a - (Z.of_nat i + 1))) with (s_len a - S i)%nat
    by (unfold len; lia).
  replace (Z.to_nat (len a - Z.of_nat i)) with (s_len a - i)%nat
    by (unfold len; lia).
  rewrite Nat2Z.id.
  destruct (copy_within h a i (S i) Hin) as (h1 & Hrun1 & Hin1 & Hv1);
    [lia|lia|].
  erewrite bind_ok by exact Hrun1.
  replace (len a - 1) with (Z.of_nat (s_len a - 1)) by (unfold len; lia).
  destruct (assign_view h1 a (s_len a - 1) zero Hin1)
    as (h2 & Hrun2 & Hin2 & Hv2); [lia|].
  erewrite bind_ok by exact Hrun2.
  unfold slice_to. rewrite reslice_ok by in_range.
  change (Z.to_nat 0) with 0%nat.
  rewrite Z.sub_0_r, Nat2Z.id, Nat.add_0_r, Nat.sub_0_r.
  eexists _, h2. split; [reflexivity|]. split.
  - destruct Hin2 as (? & ? & ?). unfold in_bounds. simpl.
    repeat split; try done; lia.
  - rewrite (view_prefix h2 a) by (done || lia).
    rewrite Hv2, Hv1. set (v := view h a) in *. pointwise.
Qed.

Lemma Cut_view h a (p q : nat) :
  in_bounds h a -> len a <= Int.max_int ->
  (p <= q)%nat -> (q <= s_len a)%nat ->
  exists a' h',
    Cut zero a (Z.of_nat p) (Z.of_nat q) h = Ok (a', h') /\
    in_bounds h' a' /\
    view h' a' = take p (view h a) ++ drop q (view h a).
Proof.
  intros Hin Hmax Hpq Hq. pose proof (view_length_in h a Hin) as Hv.
  pose proof Hin as (Harr & Hlc & Hoc).
  unfold Cut, slice_from.
  rewrite (sub_small (len a)) by in_range. rewrite add_small by in_range.
  step reslice_ok. step reslice_ok.
  replace (Z.to_nat (len a - Z.of_nat p)) with (s_len a - p)%nat
    by (unfold len; lia).
  replace (Z.to_nat (len a - Z.of_nat q)) with (s_len a - q)%nat
    by (unfold len; lia).
  rewrite !Nat2Z.id.
  destruct (copy_within h a p q Hin) as (h1 & Hrun1 & Hin1 & Hv1);
    [lia|lia|].
  erewrite bind_ok by exact Hrun1.
  unfold for_lt.
  replace (len a - Z.of_nat q + Z.of_nat p)
    with (Z.of_nat (s_len a - q + p)) by (unfold len; lia).
  replace (Z.to_nat (len a - Z.of_nat (s_len a - q + p)))
    with (q - p)%nat by (unfold len; lia).
  destruct (zero_fill_view zero h1 a (q - p) (s_len a - q + p) Hin1)
    as (h2 & Hrun2 & Hin2 & Hv2); [lia|].
  erewrite bind_ok by exact Hrun2.
  unfold slice_to. rewrite reslice_ok by in_range.
  change (Z.to_nat 0) with 0%nat.
  rewrite Z.sub_0_r, Nat2Z.id, Nat.add_0_r, Nat.sub_0_r.
  eexists _, h2. split; [reflexivity|]. split.
  - destruct Hin2 as (? & ? & ?). unfold in_bounds. simpl.
    repeat split; try done; lia.
  - rewrite (view_prefix h2 a) by (done || lia).
    rewrite Hv2, Hv1. set (v := view h a) in *.
    rewrite Nat.min_r by lia. pointwise.
Qed.

(** X8.  [Extend] with [n >= 0] appends [n] zero values: the elements
    of the argument stay in front, in order, and the length grows by
    [n]. *)
Theorem Extend_appends_zeros h a n :
  wf h a -> 0 <= n -> len a + n <= Int.max_int ->
  exists a' h',
    Extend zero spare a n h = Ok (a', h') /\
    view h' a' = view h a ++ replicate (Z.to_nat n) zero /\
    len a' = len a + n.
Proof.
  intros Hwf Hn Hsum.
  destruct (Z_of_nat_complete n) as [k ->]; [lia|]. rewrite Nat2Z.id.
  destruct (Extend_ok h a k Hwf Hsum) as (a' & h' & Hrun & _ & Hlen & Hv).
  exists a', h'. split; [done|]. split; [done|]. unfold len. lia.
Qed.

(** X9.  [Insert] with [0 <= i <= len] puts [elem] at index [i]: the
    result is [s[:i]], then [elem], then [s[i:]], one longer than the
    argument. *)
Theorem Insert_at_index h a i elem :
  wf h a -> 0 <= i <= len a ->
  exists a' h',
    Insert zero spare a i elem h = Ok (a', h') /\
    view h' a' =
      take (Z.to_nat i) (view h a) ++ elem :: drop (Z.to_nat i) (view h a) /\
    len a' = len a + 1.
Proof.
  intros Hwf Hi.
  destruct (Z_of_nat_complete i) as [k ->]; [lia|]. rewrite Nat2Z.id.
  destruct (Insert_ok h a k elem Hwf) as (a' & h' & Hrun & _ & Hlen & Hv).
  { unfold len in Hi. lia. }
  exists a', h'. split; [done|]. split; [done|]. unfold len. lia.
Qed.

(** X10.  Deleting at the index just inserted at gives the slice back:
    [Insert(&s, i, x)] followed by [Delete(&s, i)] leaves the elements
    [s] had. *)
Theorem Insert_Delete_round_trip h a i elem :
  wf h a -> 0 <= i <= len a ->
  exists a1 h1 a2 h2,
    Insert zero spare a i elem h = Ok (a1, h1) /\
    Delete zero a1 i h1 = Ok (a2, h2) /\
    view h2 a2 = view h a.
Proof.
  intros Hwf Hi. destruct (wf_in_bounds h a Hwf) as [Hin Hmax].
  pose proof (view_length_in h a Hin) as Hv.
  destruct (Z_of_nat_complete i) as [k ->]; [lia|].
  assert (k <= s_len a)%nat as Hk by (unfold len in Hi; lia).
  destruct (Insert_ok h a k elem Hwf Hk)
    as (a1 & h1 & Hrun1 & Hin1 & Hlen1 & Hv1).
  destruct (Delete_view h1 a1 k Hin1) as (a2 & h2 & Hrun2 & _ & Hv2).
  { unfold len in *. lia. }
  { lia. }
  exists a1, h1, a2, h2. split; [done|]. split; [done|].
  rewrite Hv2, Hv1. set (v := view h a) in *.
  pointwise.
Qed.

(** X11.  At the two ends [Insert] agrees with the pushes: inserting at
    [len] leaves the elements [Push] leaves, inserting at 0 those
    [PushFront] leaves. *)
Theorem Insert_at_ends h a elem :
  wf h a ->
  (exists a1 h1 a2 h2,
     Insert zero spare a (len a) elem h = Ok (a1, h1) /\
     Push zero spare a elem h = Ok (a2, h2) /\
     view h1 a1 = view h2 a2 /\ view h1 a1 = view h a ++ [elem]) /\
  (exists a1 h1 a2 h2,
     Insert zero spare a 0 elem h = Ok (a1, h1) /\
     PushFront zero spare a elem h = Ok (a2, h2) /\
     view h1 a1 = view h2 a2 /\ view h1 a1 = elem :: view h a).
Proof.
  intros Hwf. destruct (wf_in_bounds h a Hwf) as [Hin Hmax].
  pose proof (view_length_in h a Hin) as Hv. split.
  - destruct (Insert_ok h a (s_len a) elem Hwf)
      as (a1 & h1 & Hrun1 & _ & _ & Hv1); [lia|].
    destruct (Push_ok zero spare h a elem Hwf)
      as (a2 & h2 & Hrun2 & _ & _ & Hv2).
    exists a1, h1, a2, h2. split; [exact Hrun1|]. split; [done|].
    rewrite Hv1, Hv2. rewrite take_ge, drop_ge by lia. done.
  - destruct (Insert_ok h a 0 elem Hwf)
      as (a1 & h1 & Hrun1 & _ & _ & Hv1); [lia|].
    destruct (PushFront_ok zero spare h a elem Hwf)
      as (a2 & h2 & Hrun2 & _ & _ & Hv2).
    exists a1, h1, a2, h2. split; [exact Hrun1|]. split; [done|].
    rewrite Hv1, Hv2. rewrite take_0, drop_0. done.
Qed.

(** X12.  Cutting off what [Extend] added gives the slice back:
    [Extend(&s, n)] followed by [Cut(&s, len, len + n)], [len] being the
    length before, leaves the elements [s] had. *)
Theorem Extend_Cut_round_trip h a n :
  wf h a -> 0 <= n -> len a + n <= Int.max_int ->
  exists a1 h1 a2 h2,
    Extend zero spare a n h = Ok (a1, h1) /\
    Cut zero a1 (len a) (len a + n) h1 = Ok (a2, h2) /\
    view h2 a2 = view h a.
Proof.
  intros Hwf Hn Hsum. destruct (wf_in_bounds h a Hwf) as [Hin Hmax].
  pose proof (view_length_in h a Hin) as Hv.
  destruct (Z_of_nat_complete n) as [k ->]; [lia|].
  destruct (Extend_ok h a k Hwf Hsum)
    as (a1 & h1 & Hrun1 & Hin1 & Hlen1 & Hv1).
  unfold len. rewrite <- Nat2Z.inj_add.
  destruct (Cut_view h1 a1 (s_len a) (s_len a + k) Hin1)
    as (a2 & h2 & Hrun2 & _ & Hv2); [unfold len in *; lia|lia|lia|].
  exists a1, h1, a2, h2. split; [done|]. split; [done|].
  rewrite Hv2, Hv1. set (v := view h a) in *.
  rewrite take_app_length' by done.
  rewrite drop_ge, app_nil_r by (list_lengths; lia). done.
Qed.

End GrowFacts.

(** ** Arguments out of range *)

Section Panics.
Context {T : Type}.
Variable zero : T.
Variable spare : nat -> nat -> nat.
Implicit Types (h : heap T) (a : slice).

(** X13.  [Extend] panics on a negative count, whatever the slice;
    [Expand] panics on a negative count and on an index that is negative
    or beyond the length. *)
Theorem Expand_Extend_panics h a i n :
  (n < 0 -> Extend zero spare a n h = Panic) /\
  (n < 0 \/ i < 0 \/ len a < i -> Expand zero spare a i n h = Panic).
Proof.
  split.
  - intros Hn. unfold Extend, bind, make.
    destruct (Z.leb_spec 0 n); [lia|]. simpl. done.
  - intros Hb.
    unfold Expand, bind, make, slice_to, slice_from, reslice, ret, panic.
    destruct ((0 <=? 0) && (0 <=? i) && (i <=? cap a)); [|done].
    destruct (Z.leb_spec 0 n); simpl; [|done].
    destruct (Z.leb_spec n Int.max_int); simpl; [|done].
    destruct (Z.leb_spec 0 i); simpl; [|done].
    destruct (Z.leb_spec i (len a)); simpl; [lia|done].
Qed.

(** X14.  [Insert] panics when the index is negative or beyond the
    length. *)
Theorem Insert_out_of_range h a i elem :
  wf h a -> Int.in_range i -> i < 0 \/ len a < i ->
  Insert zero spare a i elem h = Panic.
Proof.
  intros Hwf Hr Hi. destruct (wf_in_bounds h a Hwf) as [Hin Hmax].
  destruct (append_spec zero spare a [zero] h Hin)
    as (a1 & h1 & Hrun & Hv1 & Hlen1 & Hin1 & _).
  { simpl. unfold len in *. lia. }
  simpl in Hlen1.
  unfold Insert. erewrite bind_ok by exact Hrun.
  unfold slice_from, reslice, bind, panic, ret.
  assert (len a1 = len a + 1) as Hl by (unfold len; lia).
  destruct (decide (i = Int.max_int)) as [->|Hne].
  { vm_compute (Int.add Int.max_int 1). done. }
  rewrite add_small by in_range.
  destruct (Z.leb_spec 0 (i + 1)); simpl; [|done].
  destruct (Z.leb_spec (i + 1) (len a1)); simpl; [|done].
  destruct (Z.leb_spec (len a1) (cap a1)); simpl; [|done].
  destruct (Z.leb_spec 0 i); simpl; [lia|done].
Qed.

(** X15.  The functions that remove one element panic when there is
    none to remove: [Pop] and [PopFront] on an empty slice, [Delete] and
    [DeleteUnordered] whenever [i] is not the index of an element (so on
    an empty slice for every [i]). *)
Theorem removal_out_of_range h a i :
  wf h a ->
  (len a = 0 -> Pop a h = Panic /\ PopFront a h = Panic) /\
  (i < 0 \/ len a <= i ->
     Delete zero a i h = Panic /\ DeleteUnordered zero a i h = Panic).
Proof.
  intros Hwf. destruct (wf_in_bounds h a Hwf) as [Hin Hmax]. split.
  { intros H0. unfold Pop, PopFront, bind, index. rewrite H0.
    change (Int.sub 0 1) with (-1). done. }
  intros Hi. split.
  - unfold Delete, slice_from, reslice, bind, ret, panic.
    destruct (Z.leb_spec 0 i); simpl; [|done].
    destruct (Z.leb_spec i (len a)); simpl; [|done].
    destruct (Z.leb_spec (len a) (cap a)); simpl; [|done].
    assert (i = len a) as -> by lia.
    rewrite add_small by in_range.
    destruct (Z.leb_spec 0 (len a + 1)); simpl; [|done].
    destruct (Z.leb_spec (len a + 1) (len a)); simpl; [lia|done].
  - unfold DeleteUnordered, bind.
    destruct (index a (Int.sub (len a) 1) h) as [[x h1]| |] eqn:Hidx.
    + unfold assign.
      destruct (Z.leb_spec 0 i); simpl; [|done].
      destruct (Z.ltb_spec i (len a)); [lia|done].
    + done.
    + unfold index in Hidx.
      destruct ((0 <=? Int.sub (len a) 1) && (Int.sub (len a) 1 <? len a));
        [|done].
      by destruct (array h a !! _).
Qed.

(** X16.  [Cut] checks its bounds only as far as the slice expressions
    do.  It panics when [start] or [end] lies outside [0..len].  It does
    not compare the two: with [end < start] nothing is removed, the
    elements from [end] on are copied over those from [start] on, and
    the slice is re-sliced to [len + (start - end)] elements, which
    succeeds when the capacity allows it and panics when it does not. *)
Theorem Cut_bounds h a start end_ :
  wf h a ->
  (start < 0 \/ len a < start \/ end_ < 0 \/ len a < end_ ->
     Cut zero a start end_ h = Panic) /\
  (0 <= end_ < start -> start <= len a ->
     (len a + (start - end_) <= cap a ->
        exists a' h',
          Cut zero a start end_ h = Ok (a', h') /\
          len a' = len a + (start - end_) /\
          take (s_len a) (view h' a') =
            take (Z.to_nat start) (view h a) ++
            take (s_len a - Z.to_nat start)
                 (drop (Z.to_nat end_) (view h a))) /\
     (cap a < len a + (start - end_) ->
        Cut zero a start end_ h = Panic)).
Proof.
  intros Hwf. split.
  { intros Hb. unfold Cut, slice_from, reslice, bind, ret, panic.
    destruct (Z.leb_spec 0 start); simpl; [|done].
    destruct (Z.leb_spec start (len a)); simpl; [|done].
    destruct (Z.leb_spec (len a) (cap a)); simpl; [|done].
    destruct (Z.leb_spec 0 end_); simpl; [|done].
    destruct (Z.leb_spec end_ (len a)); simpl; [lia|done]. }
  intros Hse Hsl. destruct (wf_in_bounds h a Hwf) as [Hin Hmax].
  pose proof (view_length_in h a Hin) as Hv.
  pose proof Hwf as (Harr & Hlc & Hoc & Hamax).
  destruct (Z_of_nat_complete start) as [p ->]; [lia|].
  destruct (Z_of_nat_complete end_) as [q ->]; [lia|].
  rewrite !Nat2Z.id.
  assert (p <= s_len a)%nat as Hp by (unfold len in *; lia).
  assert (q < p)%nat as Hq by lia.
  unfold Cut, slice_from.
  step reslice_ok. step reslice_ok.
  replace (Z.to_nat (len a - Z.of_nat p)) with (s_len a - p)%nat
    by (unfold len; lia).
  replace (Z.to_nat (len a - Z.of_nat q)) with (s_len a - q)%nat
    by (unfold len; lia).
  rewrite !Nat2Z.id.
  destruct (copy_within h a p q Hin) as (h1 & Hrun1 & Hin1 & Hv1);
    [lia|lia|].
  erewrite bind_ok by exact Hrun1.
  rewrite (sub_small (len a)) by in_range.
  destruct (Z_le_gt_dec (len a - Z.of_nat q + Z.of_nat p) Int.max_int)
    as [Hfit|Hover].
  - rewrite add_small by in_range.
    unfold for_lt.
    replace (Z.to_nat (len a - (len a - Z.of_nat q + Z.of_nat p)))
      with 0%nat by lia.
    simpl. unfold bind at 1. unfold ret at 1.
    unfold slice_to, reslice.
    destruct (Z.leb_spec (len a - Z.of_nat q + Z.of_nat p) (cap a))
      as [Hc|Hc].
    + split; [|lia]. intros _.
      destruct (Z.leb_spec 0 (len a - Z.of_nat q + Z.of_nat p)); [|lia].
      simpl. eexists _, _. split; [reflexivity|]. split.
      * unfold len in *. simpl. lia.
      * transitivity (view h1 a).
        -- unfold view, array. simpl. change (Z.to_nat 0) with 0%nat.
           rewrite take_take, Nat.add_0_r. f_equal. unfold len in *. lia.
        -- rewrite Hv1. set (v := view h a) in *.
           rewrite Nat.min_l by lia. pointwise.
    + split; [lia|]. intros _.
      destruct (Z.leb_spec 0 (len a - Z.of_nat q + Z.of_nat p)); done.
  - split; [unfold cap, Int.max_int in *; lia|]. intros _.
    assert (Int.add (len a - Z.of_nat q) (Z.of_nat p) < 0) as Hneg.
    { unfold Int.add. rewrite wrap_over; unfold Int.max_int, len in *; lia. }
    remember (Int.add (len a - Z.of_nat q) (Z.of_nat p)) as w eqn:Ew.
    clear Ew. unfold for_lt.
    destruct (Z.to_nat (len a - w)) as [|n'] eqn:En; [unfold len in *; lia|].
    simpl. unfold bind, assign.
    destruct (Z.leb_spec 0 w); [lia|done].
Qed.

End Panics.

(** ** Which arrays a call writes to, and which its results share *)

Section Aliasing.
Context {T : Type}.
Variable zero : T.
Variable spare : nat -> nat -> nat.
Implicit Types (h : heap T) (a t : slice).

(** X17.  [Push] writes through to the array when there is room: with
    [len < cap] the element lands in the slot right behind the slice, in
    the array every other slice of it shares, and no array is allocated.
    With [len = cap] the result lives in a new array and no existing
    array changes. *)
Theorem Push_in_place_or_fresh h a x :
  wf h a ->
  (len a < cap a ->
     exists h',
       Push zero spare a x h =
         Ok (Slice (s_arr a) (s_off a) (s_len a + 1) (s_cap a), h') /\
       length h' = length h /\
       array h' a = <[(s_off a + s_len a)%nat := x]> (array h a) /\
       (forall t, s_arr t <> s_arr a -> array h' t = array h t)) /\
  (len a = cap a ->
     exists a' h',
       Push zero spare a x h = Ok (a', h') /\
       s_arr a' = length h /\
       (forall t, (s_arr t < length h)%nat -> array h' t = array h t)).
Proof.
  intros Hwf. destruct (wf_in_bounds h a Hwf) as [Hin Hmax].
  pose proof Hin as (Harr & Hlc & Hoc).
  unfold Push. split; intros Hc.
  - rewrite append_fits by (simpl; in_range).
    eexists. split; [reflexivity|].
    split; [by rewrite length_alter|]. split.
    + rewrite array_alter, decide_True by done. simpl.
      apply list_eq. intros j. list_lookups.
      unfold len, cap in *.
      repeat decide_step; lookup_finish.
    + intros t Hne. unfold array. by rewrite list_lookup_alter_ne.
  - rewrite append_grows by (simpl; in_range).
    eexists _, _. split; [reflexivity|]. split; [done|].
    intros t Ht. by apply array_old.
Qed.

(** X18.  [PushFront] always allocates: the result lives in an array
    that did not exist before, and no existing array changes. *)
Theorem PushFront_fresh h a x :
  wf h a ->
  exists a' h',
    PushFront zero spare a x h = Ok (a', h') /\
    (length h <= s_arr a')%nat /\
    (forall t, (s_arr t < length h)%nat -> array h' t = array h t).
Proof.
  intros Hwf. destruct (wf_in_bounds h a Hwf) as [Hin Hmax].
  pose proof (view_length_in h a Hin) as Hv.
  pose proof Hin as (Harr & Hlc & Hoc).
  unfold PushFront, literal. unfold bind at 1.
  unfold append_slice. rewrite view_old by done.
  destruct (decide (s_len a = 0)%nat) as [H0|H0].
  - rewrite append_fits by (simpl; rewrite ?Hv; in_range).
    eexists _, _. split; [reflexivity|]. simpl. split; [done|].
    intros t Ht. rewrite array_alter by (rewrite length_app; simpl; lia).
    simpl. rewrite decide_False by lia. by apply array_old.
  - rewrite append_grows by (simpl; rewrite ?Hv; in_range).
    eexists _, _. split; [reflexivity|]. simpl.
    rewrite length_app. simpl. split; [lia|].
    intros t Ht. rewrite array_old by (rewrite length_app; simpl; lia).
    by apply array_old.
Qed.

(** X19.  The batches are slices of the array of [a], one after the
    other; nothing is copied.  Each batch but the last is cut with its
    capacity equal to its length, so appending to it cannot reach the
    next batch; the last one keeps the capacity [a] had left. *)
Theorem Batches_share_array h a batchSize fuel :
  wf h a -> 1 <= batchSize -> len a + batchSize - 1 <= Int.max_int ->
  (s_len a <= fuel)%nat ->
  exists bl,
    Batches fuel a batchSize h = Ok (bl, h) /\
    forall (i : nat) b, bl !! i = Some b ->
      s_arr b = s_arr a /\
      Z.of_nat (s_off b) = Z.of_nat (s_off a) + Z.of_nat i * batchSize /\
      ((i + 1 < length bl)%nat -> cap b = len b) /\
      ((i + 1 = length bl)%nat ->
         cap b = cap a - Z.of_nat i * batchSize).
Proof.
  intros Hwf Hbs Hov Hfuel.
  destruct (wf_in_bounds h a Hwf) as [Hin Hmax].
  pose proof Hin as (Harr & Hlc & Hoc).
  destruct (Z_of_nat_complete batchSize) as [bs ->]; [lia|].
  unfold Batches.
  destruct (Z.eqb_spec (len a) 0) as [Hz|Hnz].
  { exists []. split; [done|]. intros i b Hb. by rewrite lookup_nil in Hb. }
  destruct (Z.eqb_spec (Z.of_nat bs) 0) as [|_]; [lia|].
  rewrite sub_add_small by in_range.
  unfold Int.quot. unfold len in *.
  rewrite (ceil_div (s_len a) bs) by lia.
  set (m := ((s_len a - 1) / bs)%nat).
  assert (m * bs < s_len a /\ s_len a <= m * bs + bs)%nat as [Hlo Hhi].
  { subst m. pose proof (Nat.div_mod_eq (s_len a - 1) bs).
    pose proof (Nat.mod_upper_bound (s_len a - 1) bs). nia. }
  rewrite wrap_small by (assert (m <= s_len a)%nat by nia; in_range).
  erewrite bind_ok; cycle 1.
  { unfold make_headers.
    rewrite (proj2 (Z.leb_le 0 0)), (proj2 (Z.leb_le 0 _)) by lia.
    reflexivity. }
  change (Z.to_nat 0) with 0%nat. simpl replicate.
  pose proof (batch_loop a bs h m 0 [] fuel) as Hloop.
  cbv beta in Hloop. rewrite Nat.add_0_r, !Nat.sub_0_r in Hloop.
  replace (Slice (s_arr a) (s_off a) (s_len a) (s_cap a)) with a in Hloop
    by (by destruct a).
  unfold len in Hloop.
  erewrite bind_ok by (apply Hloop; try done; try lia; nia).
  unfold ret. eexists. split; [reflexivity|]. simpl.
  intros i b Hb. rewrite length_app, length_map, length_seq. simpl.
  rewrite lookup_app_dec, length_map, length_seq in Hb.
  destruct (decide (i < m)%nat) as [Hi|Hi].
  - rewrite list_lookup_fmap, lookup_seq_lt in Hb by done.
    simpl in Hb. injection Hb as <-. unfold len, cap. simpl.
    repeat split; lia.
  - destruct (i - m)%nat eqn:E; [|by simpl in Hb].
    simpl in Hb. injection Hb as <-. unfold len, cap. simpl.
    assert (i = m) as -> by lia.
    repeat split; lia.
Qed.


(** X21.  The windows are slices of the array of [a] too: window [i]
    starts [i] elements into [a], has [size] elements, and keeps all the
    capacity behind it, so it overlaps its neighbours and an append to it
    writes over the elements that follow.  A size of zero is accepted and
    gives [len + 1] empty windows. *)
Theorem SlidingWindow_share_array h a size fuel :
  wf h a -> 0 <= size < len a -> (s_len a + 1 <= fuel)%nat ->
  exists ws,
    SlidingWindow fuel a size h = Ok (ws, h) /\
    Z.of_nat (length ws) = len a - size + 1 /\
    forall (i : nat) w, ws !! i = Some w ->
      s_arr w = s_arr a /\ s_off w = (s_off a + i)%nat /\
      len w = size /\ s_cap w = (s_cap a - i)%nat.
Proof.
  intros Hwf Hsize Hfuel.
  destruct (wf_in_bounds h a Hwf) as [Hin Hmax].
  pose proof Hin as (Harr & Hlc & Hoc).
  destruct (Z_of_nat_complete size) as [sz ->]; [lia|].
  unfold SlidingWindow.
  destruct (Z.eqb_spec (len a) 0) as [Hz|Hnz]; [lia|].
  destruct (Z.leb_spec (len a) (Z.of_nat sz)) as [Hle|Hgt]; [lia|].
  unfold make_headers. rewrite !sub_small, !add_small by in_range.
  destruct (Z.leb_spec 0 (len a - Z.of_nat sz + 1)) as [_|]; [|lia].
  simpl. unfold bind at 1, ret at 1. simpl.
  change (Z.of_nat sz) with (Z.of_nat (0 + sz)) at 2.
  change 0 with (Z.of_nat 0) at 1.
  erewrite bind_ok; cycle 1.
  { apply (window_loop a sz h (s_len a - sz + 1) 0 [] fuel); try done.
    - unfold len in *. lia.
    - unfold len in *. lia. }
  unfold ret. eexists. split; [reflexivity|]. simpl.
  rewrite length_map, length_seq. split; [unfold len in *; lia|].
  intros i w Hw. rewrite list_lookup_fmap in Hw.
  destruct (decide (i < s_len a - sz + 1)%nat) as [Hi|Hi].
  - rewrite lookup_seq_lt in Hw by done. simpl in Hw.
    injection Hw as <-. unfold len. simpl. done.
  - rewrite lookup_seq_ge in Hw by lia. done.
Qed.

(** X22.  [SlidingWindow] panics on a non-empty slice when the size is
    negative. *)
Theorem SlidingWindow_negative_size h a size fuel :
  0 < len a -> size < 0 -> (1 <= fuel)%nat ->
  SlidingWindow fuel a size h = Panic.
Proof.
  intros Hl Hsize Hfuel. unfold SlidingWindow.
  destruct (Z.eqb_spec (len a) 0) as [|_]; [lia|].
  destruct (Z.leb_spec (len a) size) as [|_]; [lia|].
  unfold make_headers, bind at 1.
  destruct ((0 <=? 0) && (0 <=? _)); [|done].
  unfold ret at 1. simpl replicate.
  destruct fuel as [|fuel]; [lia|]. simpl while.
  destruct (Z.leb_spec size (len a)); [|lia].
  unfold reslice, bind, panic.
  destruct (Z.leb_spec 0 size); [lia|]. done.
Qed.

End Aliasing.

(** ** Reverse *)

Section ReverseFacts.
Context {T : Type}.
Implicit Types (h : heap T) (a : slice) (v : list T).

(** One iteration of the loop of [Reverse], [n] being [len(a)/2 - 1]. *)
#[local] Abbreviation reverse_body a n :=
  (fun (k : Z) (_ : unit) =>
     let i := n - k in
     let opp := Int.sub (Int.sub (len a) 1) i in
     x <- index a opp ;;
     y <- index a i ;;
     assign a i x ;;;
     assign a opp y).

(** The loop after [t] of its [m] iterations: the middle part, from
    [m - t] to its mirror image, is reversed already. *)
Lemma reverse_loop a v (m : nat) (r : nat) : forall (t : nat) h,
  length v = s_len a -> (2 * m <= s_len a)%nat -> (s_len a <= 2 * m + 1)%nat ->
  len a <= Int.max_int ->
  in_bounds h a -> (t + r = m)%nat ->
  (forall j : nat,
     view h a !! j =
       if decide (m - t <= j < s_len a - (m - t))%nat
       then v !! (s_len a - 1 - j)%nat else v !! j) ->
  exists h',
    for_upto r (Z.of_nat t) (reverse_body a (Z.of_nat m - 1)) tt h =
      Ok (tt, h') /\
    in_bounds h' a /\
    (forall j : nat,
       view h' a !! j =
         if decide (j < s_len a)%nat then v !! (s_len a - 1 - j)%nat
         else v !! j) /\
    length h' = length h /\
    (forall u, s_arr u <> s_arr a -> array h' u = array h u).
Proof.
  induction r as [|r IH]; intros t h Hv Hm1 Hm2 Hmax Hin Htr Hinv.
  - exists h. split; [done|]. split; [done|]. split; [|done].
    intros j. rewrite Hinv.
    replace (m - t)%nat with 0%nat by lia.
    repeat case_decide; try done; lia.
  - set (i := (m - 1 - t)%nat). set (opp := (s_len a - 1 - i)%nat).
    assert (opp < s_len a)%nat as Hopp by (unfold opp, i; lia).
    assert (i < opp)%nat as Hio by (unfold opp, i; lia).
    destruct (lookup_lt_is_Some_2 v i) as [y Hy]; [lia|].
    destruct (lookup_lt_is_Some_2 v opp) as [x Hx]; [lia|].
    assert (view h a !! i = Some y) as Hyi.
    { rewrite Hinv, decide_False by (unfold i; lia). done. }
    assert (view h a !! opp = Some x) as Hxo.
    { rewrite Hinv, decide_False by (unfold opp, i; lia). done. }
    destruct (exchange_view h a i opp x y Hin Hyi Hxo)
      as (h1 & Hrun & Hin1 & Hv1 & Hl1 & Hf1).
    assert (reverse_body a (Z.of_nat m - 1) (Z.of_nat t) tt h = Ok (tt, h1))
      as Hstep.
    { cbv beta zeta.
      replace (Z.of_nat m - 1 - Z.of_nat t) with (Z.of_nat i)
        by (unfold i; lia).
      rewrite (sub_small (len a) 1) by in_range.
      rewrite sub_small by (unfold i; in_range).
      replace (len a - 1 - Z.of_nat i) with (Z.of_nat opp)
        by (unfold opp, len; lia).
      exact Hrun. }
    cbn [for_upto]. erewrite bind_ok by exact Hstep.
    replace (Z.of_nat t + 1) with (Z.of_nat (S t)) by lia.
    destruct (IH (S t) h1) as (h2 & Hrun2 & Hin2 & Hv2 & Hl2 & Hf2);
      try done; try lia.
    + intros j. rewrite Hv1. rewrite !list_lookup_insert.
      rewrite length_insert, (view_length_in h a Hin). rewrite Hinv.
      repeat case_decide; try lia; try done.
      * destruct_and!. subst j. rewrite <- Hy. f_equal. unfold opp. lia.
      * destruct_and!. subst j. rewrite <- Hx. f_equal.
    + exists h2. split; [done|]. split; [done|]. split; [done|].
      split; [lia|]. intros u Hne. by rewrite Hf2, Hf1.
Qed.

Lemma Reverse_ok h a :
  in_bounds h a -> len a <= Int.max_int ->
  exists h',
    Reverse a h = Ok (tt, h') /\
    view h' a = reverse (view h a) /\
    in_bounds h' a /\
    (forall t, s_arr t <> s_arr a -> array h' t = array h t).
Proof.
  intros Hin Hmax. pose proof (view_length_in h a Hin) as Hv.
  set (m := (s_len a / 2)%nat).
  assert (2 * m <= s_len a)%nat as Hm1.
  { unfold m. pose proof (Nat.div_mod_eq (s_len a) 2).
    pose proof (Nat.mod_upper_bound (s_len a) 2). lia. }
  assert (s_len a <= 2 * m + 1)%nat as Hm2.
  { unfold m. pose proof (Nat.div_mod_eq (s_len a) 2).
    pose proof (Nat.mod_upper_bound (s_len a) 2). lia. }
  assert (Int.sub (Int.quot (len a) 2) 1 = Z.of_nat m - 1) as Hn.
  { unfold Int.quot. rewrite Z.quot_div_nonneg by (unfold len; lia).
    unfold len, m. rewrite Nat2Z.inj_div. change (Z.of_nat 2) with 2.
    assert (0 <= Z.of_nat (s_len a) / 2 <= Z.of_nat (s_len a)).
    { split; [apply Z.div_pos; lia|]. apply Z.div_le_upper_bound; lia. }
    rewrite wrap_small by in_range. apply sub_small. in_range. }
  unfold Reverse. cbv zeta. rewrite Hn.
  replace (Z.to_nat (Z.of_nat m - 1 + 1)) with m by lia.
  destruct (reverse_loop a (view h a) m m 0%nat h)
    as (h' & Hrun & Hin' & Hv' & _ & Hf); try done.
  { intros j. replace (m - 0)%nat with m by lia.
    case_decide as Hc; [|done].
    f_equal. lia. }
  exists h'. split; [exact Hrun|]. split; [|done].
  apply list_eq. intros j. rewrite Hv'.
  case_decide.
  - rewrite reverse_lookup by lia. f_equal. lia.
  - rewrite !lookup_ge_None_2; [done| |lia].
    rewrite length_reverse. lia.
Qed.

(** X23.  [Reverse] reverses the slice in place: afterwards the slice
    holds its former elements in the opposite order, under the same
    header, and no other array has changed.  A second call restores the
    original order. *)
Theorem Reverse_reverses h a :
  in_bounds h a -> len a <= Int.max_int ->
  exists h1,
    Reverse a h = Ok (tt, h1) /\
    view h1 a = reverse (view h a) /\
    (forall t, s_arr t <> s_arr a -> array h1 t = array h t) /\
    exists h2,
      Reverse a h1 = Ok (tt, h2) /\
      view h2 a = view h a.
Proof.
  intros Hin Hmax.
  destruct (Reverse_ok h a Hin Hmax) as (h1 & Hrun1 & Hv1 & Hin1 & Hf1).
  destruct (Reverse_ok h1 a Hin1 Hmax) as (h2 & Hrun2 & Hv2 & _).
  exists h1. split; [done|]. split; [done|]. split; [done|].
  exists h2. split; [done|].
  by rewrite Hv2, Hv1, reverse_involutive.
Qed.

End ReverseFacts.

(** ** What the filters that do not clear leave behind *)

Section LeftBehind.
Context {T : Type}.
Variable zero : T.
Variable spare : nat -> nat -> nat.
Implicit Types (h : heap T) (a : slice) (keep : T -> bool).

(** The compaction pass writes below the count of kept elements only. *)
Lemma pass_frame keep a (k : nat) : forall (i n : nat) h r h',
  (s_arr a < length h)%nat -> Z.of_nat (s_len a) < Int.max_int ->
  (i + k = s_len a)%nat -> (n <= i)%nat ->
  range_from a i k
    (fun _ x n =>
       if keep x then assign a n x ;;; ret (Int.add n 1) else ret n)
    (Z.of_nat n) h = Ok (r, h') ->
  exists n' : nat,
    r = Z.of_nat n' /\ (n <= n')%nat /\
    forall j : nat, (s_off a + n' <= j)%nat ->
      array h' a !! j = array h a !! j.
Proof.
  induction k as [|k IH]; intros i n h r h' Harr Hmax Hik Hn Hrun.
  - injection Hrun as <- <-. by exists n.
  - simpl in Hrun. unfold bind at 1 in Hrun.
    unfold index in Hrun.
    destruct ((0 <=? Z.of_nat i) && (Z.of_nat i <? len a)); [|done].
    destruct (array h a !! (s_off a + Z.to_nat (Z.of_nat i))%nat) as [x|];
      [|done].
    destruct (keep x).
    + unfold bind at 1 in Hrun. unfold bind at 1 in Hrun.
      rewrite assign_ok in Hrun by in_range.
      unfold ret at 1 in Hrun. rewrite add_small in Hrun by in_range.
      replace (Z.of_nat n + 1) with (Z.of_nat (S n)) in Hrun by lia.
      apply IH in Hrun as (n' & -> & Hn' & Hfr);
        [|by rewrite length_alter|done|lia|lia].
      exists n'. split; [done|]. split; [lia|].
      intros j Hj. rewrite Hfr by done.
      rewrite array_alter, decide_True by done.
      rewrite list_lookup_insert_ne; [done|lia].
    + unfold bind at 1, ret at 1 in Hrun.
      apply IH in Hrun as (n' & -> & Hn' & Hfr); [|done|done|lia|lia].
      by exists n'.
Qed.

(** So does the pass written with [append]. *)
Lemma append_pass_frame keep a (k : nat) : forall (i n : nat) h r h',
  (s_arr a < length h)%nat -> (s_len a <= s_cap a)%nat ->
  Z.of_nat (s_len a) < Int.max_int ->
  (i + k = s_len a)%nat -> (n <= i)%nat ->
  range_from a i k
    (fun _ x b => if keep x then append zero spare b [x] else ret b)
    (Slice (s_arr a) (s_off a) n (s_cap a)) h = Ok (r, h') ->
  exists n' : nat,
    r = Slice (s_arr a) (s_off a) n' (s_cap a) /\ (n <= n')%nat /\
    forall j : nat, (s_off a + n' <= j)%nat ->
      array h' a !! j = array h a !! j.
Proof.
  induction k as [|k IH]; intros i n h r h' Harr Hlc Hmax Hik Hn Hrun.
  - injection Hrun as <- <-. by exists n.
  - simpl in Hrun. unfold bind at 1 in Hrun.
    unfold index in Hrun.
    destruct ((0 <=? Z.of_nat i) && (Z.of_nat i <? len a)); [|done].
    destruct (array h a !! (s_off a + Z.to_nat (Z.of_nat i))%nat) as [x|];
      [|done].
    destruct (keep x).
    + unfold bind at 1 in Hrun.
      rewrite append_fits in Hrun by (simpl; in_range).
      simpl in Hrun. replace (n + 1)%nat with (S n) in Hrun by lia.
      apply IH in Hrun as (n' & -> & Hn' & Hfr);
        [|by rewrite length_alter|done|done|lia|lia].
      exists n'. split; [done|]. split; [lia|].
      intros j Hj. rewrite Hfr by done.
      rewrite array_alter, decide_True by done.
      rewrite list_lookup_insert_ne; [done|lia].
    + unfold bind at 1, ret at 1 in Hrun.
      apply IH in Hrun as (n' & -> & Hn' & Hfr); [|done|done|done|lia|lia].
      by exists n'.
Qed.

(** X24.  The filters that do not clear leave the rest of the array as
    it was: after [Filter] of the first copy, [FilterNoGC] and
    [FilterZeroAllocNoGC], every slot from the new length on still holds
    the element it held before the call, so the elements beyond the new
    length stay reachable through the array. *)
Theorem uncleared_slots_keep_elements keep h a :
  wf h a ->
  (exists a' h',
     PartA.Filter a keep h = Ok (a', h') /\
     forall k : nat, (s_len a' <= k)%nat ->
       array h' a !! (s_off a + k)%nat = array h a !! (s_off a + k)%nat) /\
  (exists a' h',
     PartB.FilterNoGC a keep h = Ok (a', h') /\
     forall k : nat, (s_len a' <= k)%nat ->
       array h' a !! (s_off a + k)%nat = array h a !! (s_off a + k)%nat) /\
  (exists a' h',
     FilterZeroAllocNoGC zero spare a keep h = Ok (a', h') /\
     forall k : nat, (s_len a' <= k)%nat ->
       array h' a !! (s_off a + k)%nat = array h a !! (s_off a + k)%nat).
Proof.
  intros Hwf. pose proof (kept_le keep h a Hwf) as Hle.
  destruct (wf_in_bounds h a Hwf) as [Hin Hmax].
  pose proof Hin as (Harr & Hlc & Hoc).
  assert (exists a' h',
     PartA.Filter a keep h = Ok (a', h') /\
     forall k : nat, (s_len a' <= k)%nat ->
       array h' a !! (s_off a + k)%nat = array h a !! (s_off a + k)%nat)
    as HA.
  { destruct (pass_whole keep h a Hwf) as (h' & Hrun & _).
    pose proof Hrun as Hfr. unfold range in Hfr.
    apply (pass_frame keep a (s_len a) 0 0) in Hfr
      as (n' & Hn' & _ & Hfr); [|done|done|lia|lia].
    apply Nat2Z.inj in Hn'. subst n'.
    unfold PartA.Filter. erewrite bind_ok by exact Hrun.
    unfold slice_to. rewrite reslice_ok by in_range.
    eexists _, _. split; [reflexivity|]. simpl.
    intros k Hk. apply Hfr. lia. }
  split; [exact HA|]. split; [exact HA|].
  destruct (append_pass_whole zero spare keep h a Hwf) as (h' & Hrun & _).
  pose proof Hrun as Hfr. unfold range in Hfr.
  apply (append_pass_frame keep a (s_len a) 0 0) in Hfr
    as (n' & Hn' & _ & Hfr); [|done|done|done|lia|lia].
  injection Hn' as Hn'. subst n'.
  unfold FilterZeroAllocNoGC, slice_to. step reslice_ok.
  change (Z.to_nat (0 - 0)) with 0%nat. change (Z.to_nat 0) with 0%nat.
  rewrite Nat.add_0_r, Nat.sub_0_r. rewrite Hrun.
  eexists _, _. split; [reflexivity|]. simpl.
  intros k Hk. apply Hfr. lia.
Qed.

End LeftBehind.

(** ** In place, without allocation *)

Section InPlace.
Context {T : Type}.
Variable zero : T.
Variable spare : nat -> nat -> nat.
Implicit Types (h : heap T) (a : slice) (keep : T -> bool).

(** X25.  The two [FilterZeroAlloc] functions keep their name: although
    they are written with [append], no call of it outgrows the capacity,
    so no array is allocated and the result is a slice of the array of
    the argument, at the same offset and with the same capacity. *)
Theorem FilterZeroAlloc_no_allocation keep h a :
  wf h a ->
  (exists a' h',
     FilterZeroAllocNoGC zero spare a keep h = Ok (a', h') /\
     length h' = length h /\
     s_arr a' = s_arr a /\ s_off a' = s_off a /\ s_cap a' = s_cap a) /\
  (exists a' h',
     FilterZeroAlloc zero spare a keep h = Ok (a', h') /\
     length h' = length h /\
     s_arr a' = s_arr a /\ s_off a' = s_off a /\ s_cap a' = s_cap a).
Proof.
  intros Hwf. pose proof (kept_le keep h a Hwf) as Hle.
  destruct (append_pass_whole zero spare keep h a Hwf)
    as (h' & Hrun & Hlh & _).
  destruct Hwf as (Harr & Hlc & Hoc & Hmax). split.
  - unfold FilterZeroAllocNoGC, slice_to. step reslice_ok.
    change (Z.to_nat (0 - 0)) with 0%nat. change (Z.to_nat 0) with 0%nat.
    rewrite Nat.add_0_r, Nat.sub_0_r. rewrite Hrun.
    eexists _, _. split; [reflexivity|]. done.
  - unfold FilterZeroAlloc, slice_to. step reslice_ok.
    change (Z.to_nat (0 - 0)) with 0%nat. change (Z.to_nat 0) with 0%nat.
    rewrite Nat.add_0_r, Nat.sub_0_r.
    erewrite bind_ok by exact Hrun.
    unfold for_lt. step zero_fill_ok.
    eexists _, _. split; [reflexivity|].
    rewrite length_alter. done.
Qed.

(** X26.  [Pop] leaves the capacity alone, so pushing the popped
    element back needs no allocation and writes what is there already:
    [Pop] followed by [Push] of its result gives back the very same
    slice over the very same heap. *)
Theorem Pop_Push_round_trip h a :
  wf h a -> 0 < len a ->
  exists x a',
    Pop a h = Ok ((x, a'), h) /\
    Push zero spare a' x h = Ok (a, h).
Proof.
  intros Hwf Hpos. destruct (wf_in_bounds h a Hwf) as [Hin Hmax].
  pose proof Hin as (Harr & Hlc & Hoc).
  destruct (Pop_ok h a Hin) as (x & a' & Hrun & -> & Hx & _);
    [lia|done|].
  eexists x, _. split; [exact Hrun|].
  unfold Push. rewrite append_fits by (simpl; in_range).
  simpl. f_equal. f_equal.
  - destruct a as [arr off n c]. simpl in *. f_equal.
    unfold len in Hpos. simpl in Hpos. lia.
  - apply list_eq. intros j. rewrite list_lookup_alter.
    case_decide as Hj; [|done]. subst j.
    unfold array in Hx.
    destruct (h !! s_arr a) as [l|] eqn:Hl; [|done]. simpl in *.
    f_equal. apply list_eq. intros k.
    destruct (decide (k = s_off a + (s_len a - 1))%nat) as [->|Hne].
    + rewrite list_lookup_insert_eq; [done|].
      by apply lookup_lt_Some in Hx.
    + by rewrite list_lookup_insert_ne.
Qed.

End InPlace.

(** ** InsertMany, where it is right *)

Section InsertManyFacts.
Context {T : Type}.
Variable zero : T.
Implicit Types (h : heap T) (a elems : slice).

(** X27.  [InsertMany] leaves [s[:i]], the inserted elements and
    [s[i:]] whenever it has to reallocate, and within capacity when the
    tail [s[i:]] has at most [len(elems) + 1] elements and the capacity
    reaches [i + len(elems) + 1] (the inserted elements being read from
    another array). *)
Theorem InsertMany_inserts h a i elems :
  wf h a -> in_bounds h elems -> 0 <= i <= len a ->
  len a + len elems <= Int.max_int ->
  cap a < len a + len elems \/
  (s_arr elems <> s_arr a /\
   len a - i <= len elems + 1 /\ i + len elems + 1 <= cap a) ->
  exists a' h',
    InsertMany zero a i elems h = Ok (a', h') /\
    view h' a' =
      take (Z.to_nat i) (view h a) ++ view h elems ++
      drop (Z.to_nat i) (view h a).
Proof.
  intros Hwf Hine Hi Hsum [Hgrow|(Hne & Htail & Hcap)].
  - by apply InsertMany_realloc_ok.
  - destruct (Z_le_gt_dec (len a + len elems) (cap a)).
    + by apply InsertMany_in_place_ok.
    + apply InsertMany_realloc_ok; try done. lia.
Qed.

End InsertManyFacts.

(** * The further properties on concrete slices *)

Lemma in_x0123 : in_bounds heap0123 x0123.
Proof. unfold in_bounds. simpl. lia. Defined.

Lemma wf_x0123_789 : wf heap0123_789 x0123.
Proof. unfold wf, Int.max_int. simpl. lia. Defined.

Lemma in_elems789 : in_bounds heap0123_789 elems789.
Proof. unfold in_bounds. simpl. lia. Defined.



(** Arithmetic on the lengths and capacities of the slices above. *)
Ltac concrete :=
  unfold Int.in_range, Int.min_int, Int.max_int, len, cap, x0123, elems789;
  simpl; lia.

Lemma All_iff_witness :
  in_bounds heap0123 x0123 /\
  (exists b : bool,
     PartB.All x0123 Z.even heap0123 = Ok (b, heap0123)
     /\ (b = true
        <-> forall x : Z, x ∈ view heap0123 x0123 -> Z.even x = true)
       /\ (len x0123 = 0 -> b = true)).
Proof.
  split; [exact in_x0123|].
  exact (All_iff Z.even heap0123 x0123 in_x0123).
Defined.

Lemma Any_iff_witness :
  in_bounds heap0123 x0123 /\
  (exists b : bool,
     PartB.Any x0123 Z.even heap0123 = Ok (b, heap0123)
     /\ (b = true
        <-> exists x : Z, x ∈ view heap0123 x0123 /\ Z.even x = true)
       /\ (len x0123 = 0 -> b = false)).
Proof.
  split; [exact in_x0123|].
  exact (Any_iff Z.even heap0123 x0123 in_x0123).
Defined.

Lemma None_is_All_not_witness :
  in_bounds heap0123 x0123 /\
  (exists b : bool,
     PartB.None x0123 Z.even heap0123 = Ok (b, heap0123)
     /\ PartB.All x0123 (fun x : Z => negb (Z.even x)) heap0123 =
       Ok (b, heap0123)
       /\ (b = true
          <-> forall x : Z, x ∈ view heap0123 x0123 -> Z.even x = false)).
Proof.
  split; [exact in_x0123|].
  exact (None_is_All_not Z.even heap0123 x0123 in_x0123).
Defined.


Lemma Copy_fresh_array_witness :
  wf heap0123 x0123 /\
  (exists (b : slice) (h' : heap Z),
     Copy 0 x0123 heap0123 = Ok (b, h')
     /\ view h' b = view heap0123 x0123
       /\ s_arr b = length heap0123
         /\ array h' b = view heap0123 x0123
           /\ cap b = len x0123
             /\ forall t : slice,
                 (s_arr t < length heap0123)%nat
                 -> array h' t = array heap0123 t).
Proof.
  split; [exact wf_x0123|].
  exact (Copy_fresh_array 0 heap0123 x0123 wf_x0123).
Defined.

Lemma Copy_independent_witness :
  wf heap0123 x0123 /\
  0 <= 1 < len x0123 /\
  (exists (b : slice) (h1 : heap Z),
     Copy 0 x0123 heap0123 = Ok (b, h1)
     /\ (exists h2 : heap Z,
          assign b 1 9 h1 = Ok (tt, h2)
          /\ view h2 b = <[Z.to_nat 1:=9]> (view heap0123 x0123)
            /\ view h2 x0123 = view heap0123 x0123)
       /\ exists h2 : heap Z,
           assign x0123 1 9 h1 = Ok (tt, h2)
           /\ view h2 x0123 =
             <[Z.to_nat 1:=9]> (view heap0123 x0123)
             /\ view h2 b = view heap0123 x0123).
Proof.
  assert (0 <= 1 < len x0123) as H2 by concrete.
  split; [exact wf_x0123|].
  split; [exact H2|].
  exact (Copy_independent 0 heap0123 x0123 1 9 wf_x0123 H2).
Defined.

Lemma DeleteUnordered_moves_last_witness :
  wf heap0123 x0123 /\
  0 <= 1 < len x0123 /\
  (exists (a' : slice) (h' : heap Z) (x : Z),
     DeleteUnordered 0 x0123 1 heap0123 = Ok (a', h')
     /\ last (view heap0123 x0123) = Some x
       /\ view h' a' =
         take (s_len x0123 - 1)
           (<[Z.to_nat 1:=x]> (view heap0123 x0123))
         /\ view h' a'
           ≡ₚ delete (Z.to_nat 1) (view heap0123 x0123)
           /\ len a' = len x0123 - 1
             /\ array h' x0123
               !! (s_off x0123 + (s_len x0123 - 1))%nat =
               Some 0).
Proof.
  assert (0 <= 1 < len x0123) as H2 by concrete.
  split; [exact wf_x0123|].
  split; [exact H2|].
  exact (DeleteUnordered_moves_last 0 heap0123 x0123 1 wf_x0123 H2).
Defined.

Lemma Extend_appends_zeros_witness :
  wf heap0123 x0123 /\
  0 <= 3 /\
  len x0123 + 3 <= Int.max_int /\
  (exists (a' : slice) (h' : heap Z),
     Extend 0 doubling x0123 3 heap0123 = Ok (a', h')
     /\ view h' a' =
       view heap0123 x0123 ++ replicate (Z.to_nat 3) 0
       /\ len a' = len x0123 + 3).
Proof.
  assert (0 <= 3) as H2 by concrete.
  assert (len x0123 + 3 <= Int.max_int) as H3 by concrete.
  split; [exact wf_x0123|].
  split; [exact H2|].
  split; [exact H3|].
  exact (Extend_appends_zeros 0 doubling heap0123 x0123 3 wf_x0123 H2 H3).
Defined.

Lemma Insert_at_index_witness :
  wf heap0123 x0123 /\
  0 <= 2 <= len x0123 /\
  (exists (a' : slice) (h' : heap Z),
     Insert 0 doubling x0123 2 9 heap0123 = Ok (a', h')
     /\ view h' a' =
       take (Z.to_nat 2) (view heap0123 x0123) ++
       9 :: drop (Z.to_nat 2) (view heap0123 x0123)
       /\ len a' = len x0123 + 1).
Proof.
  assert (0 <= 2 <= len x0123) as H2 by concrete.
  split; [exact wf_x0123|].
  split; [exact H2|].
  exact (Insert_at_index 0 doubling heap0123 x0123 2 9 wf_x0123 H2).
Defined.

Lemma Insert_Delete_round_trip_witness :
  wf heap0123 x0123 /\
  0 <= 2 <= len x0123 /\
  (exists (a1 : slice) (h1 : heap Z) (a2 : slice) (h2 : heap Z),
     Insert 0 doubling x0123 2 9 heap0123 = Ok (a1, h1)
     /\ Delete 0 a1 2 h1 = Ok (a2, h2)
       /\ view h2 a2 = view heap0123 x0123).
Proof.
  assert (0 <= 2 <= len x0123) as H2 by concrete.
  split; [exact wf_x0123|].
  split; [exact H2|].
  exact (Insert_Delete_round_trip 0 doubling heap0123 x0123 2 9 wf_x0123 H2).
Defined.

Lemma Insert_at_ends_witness :
  wf heap0123 x0123 /\
  ((exists (a1 : slice) (h1 : heap Z) (a2 : slice) (h2 : heap Z),
      Insert 0 doubling x0123 (len x0123) 9 heap0123 =
      Ok (a1, h1)
      /\ Push 0 doubling x0123 9 heap0123 = Ok (a2, h2)
        /\ view h1 a1 = view h2 a2
          /\ view h1 a1 = view heap0123 x0123 ++ [9])
   /\ exists (a1 : slice) (h1 : heap Z) (a2 : slice) (h2 : heap Z),
       Insert 0 doubling x0123 0 9 heap0123 = Ok (a1, h1)
       /\ PushFront 0 doubling x0123 9 heap0123 = Ok (a2, h2)
         /\ view h1 a1 = view h2 a2
           /\ view h1 a1 = 9 :: view heap0123 x0123).
Proof.
  split; [exact wf_x0123|].
  exact (Insert_at_ends 0 doubling heap0123 x0123 9 wf_x0123).
Defined.

Lemma Extend_Cut_round_trip_witness :
  wf heap0123 x0123 /\
  0 <= 3 /\
  len x0123 + 3 <= Int.max_int /\
  (exists (a1 : slice) (h1 : heap Z) (a2 : slice) (h2 : heap Z),
     Extend 0 doubling x0123 3 heap0123 = Ok (a1, h1)
     /\ Cut 0 a1 (len x0123) (len x0123 + 3) h1 = Ok (a2, h2)
       /\ view h2 a2 = view heap0123 x0123).
Proof.
  assert (0 <= 3) as H2 by concrete.
  assert (len x0123 + 3 <= Int.max_int) as H3 by concrete.
  split; [exact wf_x0123|].
  split; [exact H2|].
  split; [exact H3|].
  exact (Extend_Cut_round_trip 0 doubling heap0123 x0123 3 wf_x0123 H2 H3).
Defined.

Lemma Insert_out_of_range_witness :
  wf heap0123 x0123 /\
  Int.in_range 5 /\
  (5 < 0 \/ len x0123 < 5) /\
  (Insert 0 doubling x0123 5 9 heap0123 = Panic).
Proof.
  assert (Int.in_range 5) as H2 by concrete.
  assert (5 < 0 \/ len x0123 < 5) as H3 by concrete.
  split; [exact wf_x0123|].
  split; [exact H2|].
  split; [exact H3|].
  exact (Insert_out_of_range 0 doubling heap0123 x0123 5 9 wf_x0123 H2 H3).
Defined.

Lemma removal_out_of_range_witness :
  wf heap0123 x0123 /\
  ((len x0123 = 0
    -> Pop x0123 heap0123 = Panic
      /\ PopFront x0123 heap0123 = Panic)
   /\ (4 < 0 \/ len x0123 <= 4
      -> Delete 0 x0123 4 heap0123 = Panic
        /\ DeleteUnordered 0 x0123 4 heap0123 = Panic)).
Proof.
  split; [exact wf_x0123|].
  exact (removal_out_of_range 0 heap0123 x0123 4 wf_x0123).
Defined.

Lemma Cut_bounds_witness :
  wf heap0123 x0123 /\
  ((3 < 0 \/ len x0123 < 3 \/ 1 < 0 \/ len x0123 < 1
    -> Cut 0 x0123 3 1 heap0123 = Panic)
   /\ (0 <= 1 < 3
      -> 3 <= len x0123
        -> (len x0123 + (3 - 1) <= cap x0123
           -> exists (a' : slice) (h' : heap Z),
               Cut 0 x0123 3 1 heap0123 = Ok (a', h')
               /\ len a' = len x0123 + (3 - 1)
                 /\ take (s_len x0123) (view h' a') =
                   take (Z.to_nat 3) (view heap0123 x0123) ++
                   take (s_len x0123 - Z.to_nat 3)
                     (drop (Z.to_nat 1) (view heap0123 x0123)))
          /\ (cap x0123 < len x0123 + (3 - 1)
             -> Cut 0 x0123 3 1 heap0123 = Panic))).
Proof.
  split; [exact wf_x0123|].
  exact (Cut_bounds 0 heap0123 x0123 3 1 wf_x0123).
Defined.

Lemma Push_in_place_or_fresh_witness :
  wf heap0123 x0123 /\
  ((len x0123 < cap x0123
    -> exists h' : heap Z,
        Push 0 doubling x0123 9 heap0123 =
        Ok
          ({|
             s_arr := s_arr x0123;
             s_off := s_off x0123;
             s_len := s_len x0123 + 1;
             s_cap := s_cap x0123
           |}, h')
        /\ length h' = length heap0123
          /\ array h' x0123 =
            <[(s_off x0123 + s_len x0123)%nat:=9]>
              (array heap0123 x0123)
            /\ forall t : slice,
                s_arr t <> s_arr x0123
                -> array h' t = array heap0123 t)
   /\ (len x0123 = cap x0123
      -> exists (a' : slice) (h' : heap Z),
          Push 0 doubling x0123 9 heap0123 = Ok (a', h')
          /\ s_arr a' = length heap0123
            /\ forall t : slice,
                (s_arr t < length heap0123)%nat
                -> array h' t = array heap0123 t)).
Proof.
  split; [exact wf_x0123|].
  exact (Push_in_place_or_fresh 0 doubling heap0123 x0123 9 wf_x0123).
Defined.

Lemma PushFront_fresh_witness :
  wf heap0123 x0123 /\
  (exists (a' : slice) (h' : heap Z),
     PushFront 0 doubling x0123 9 heap0123 = Ok (a', h')
     /\ (length heap0123 <= s_arr a')%nat
       /\ forall t : slice,
           (s_arr t < length heap0123)%nat
           -> array h' t = array heap0123 t).
Proof.
  split; [exact wf_x0123|].
  exact (PushFront_fresh 0 doubling heap0123 x0123 9 wf_x0123).
Defined.

Lemma Batches_share_array_witness :
  wf heap0123 x0123 /\
  1 <= 3 /\
  len x0123 + 3 - 1 <= Int.max_int /\
  (s_len x0123 <= 4)%nat /\
  (exists bl : list slice,
     Batches 4 x0123 3 heap0123 = Ok (bl, heap0123)
     /\ forall (i : nat) (b : slice),
         bl !! i = Some b
         -> s_arr b = s_arr x0123
           /\ Z.of_nat (s_off b) =
             Z.of_nat (s_off x0123) + Z.of_nat i * 3
             /\ ((i + 1 < length bl)%nat -> cap b = len b)
               /\ ((i + 1)%nat = length bl
                  -> cap b = cap x0123 - Z.of_nat i * 3)).
Proof.
  assert (1 <= 3) as H2 by concrete.
  assert (len x0123 + 3 - 1 <= Int.max_int) as H3 by concrete.
  assert ((s_len x0123 <= 4)%nat) as H4 by concrete.
  split; [exact wf_x0123|].
  split; [exact H2|].
  split; [exact H3|].
  split; [exact H4|].
  exact (Batches_share_array heap0123 x0123 3 4 wf_x0123 H2 H3 H4).
Defined.


Lemma SlidingWindow_share_array_witness :
  wf heap0123 x0123 /\
  0 <= 3 < len x0123 /\
  (s_len x0123 + 1 <= 5)%nat /\
  (exists ws : list slice,
     SlidingWindow 5 x0123 3 heap0123 = Ok (ws, heap0123)
     /\ Z.of_nat (length ws) = len x0123 - 3 + 1
       /\ forall (i : nat) (w : slice),
           ws !! i = Some w
           -> s_arr w = s_arr x0123
             /\ s_off w = (s_off x0123 + i)%nat
               /\ len w = 3 /\ s_cap w = (s_cap x0123 - i)%nat).
Proof.
  assert (0 <= 3 < len x0123) as H2 by concrete.
  assert ((s_len x0123 + 1 <= 5)%nat) as H3 by concrete.
  split; [exact wf_x0123|].
  split; [exact H2|].
  split; [exact H3|].
  exact (SlidingWindow_share_array heap0123 x0123 3 5 wf_x0123 H2 H3).
Defined.

Lemma SlidingWindow_negative_size_witness :
  0 < len x0123 /\
  -1 < 0 /\
  (1 <= 1)%nat /\
  (SlidingWindow 1 x0123 (-1) heap0123 = Panic).
Proof.
  assert (0 < len x0123) as H1 by concrete.
  assert (-1 < 0) as H2 by concrete.
  assert ((1 <= 1)%nat) as H3 by concrete.
  split; [exact H1|].
  split; [exact H2|].
  split; [exact H3|].
  exact (SlidingWindow_negative_size heap0123 x0123 (-1) 1 H1 H2 H3).
Defined.

Lemma Reverse_reverses_witness :
  in_bounds heap0123 x0123 /\
  len x0123 <= Int.max_int /\
  (exists h1 : heap Z,
     Reverse x0123 heap0123 = Ok (tt, h1)
     /\ view h1 x0123 = reverse (view heap0123 x0123)
       /\ (forall t : slice,
            s_arr t <> s_arr x0123
            -> array h1 t = array heap0123 t)
         /\ exists h2 : heap Z,
             Reverse x0123 h1 = Ok (tt, h2)
             /\ view h2 x0123 = view heap0123 x0123).
Proof.
  assert (len x0123 <= Int.max_int) as H2 by concrete.
  split; [exact in_x0123|].
  split; [exact H2|].
  exact (Reverse_reverses heap0123 x0123 in_x0123 H2).
Defined.

Lemma uncleared_slots_keep_elements_witness :
  wf heap0123 x0123 /\
  ((exists (a' : slice) (h' : heap Z),
      PartA.Filter x0123 Z.even heap0123 = Ok (a', h')
      /\ forall k : nat,
          (s_len a' <= k)%nat
          -> array h' x0123 !! (s_off x0123 + k)%nat =
            array heap0123 x0123 !! (s_off x0123 + k)%nat)
   /\ (exists (a' : slice) (h' : heap Z),
        PartB.FilterNoGC x0123 Z.even heap0123 = Ok (a', h')
        /\ forall k : nat,
            (s_len a' <= k)%nat
            -> array h' x0123 !! (s_off x0123 + k)%nat =
              array heap0123 x0123 !! (s_off x0123 + k)%nat)
     /\ exists (a' : slice) (h' : heap Z),
         FilterZeroAllocNoGC 0 doubling x0123 Z.even heap0123 =
         Ok (a', h')
         /\ forall k : nat,
             (s_len a' <= k)%nat
             -> array h' x0123 !! (s_off x0123 + k)%nat =
               array heap0123 x0123 !! (s_off x0123 + k)%nat).
Proof.
  split; [exact wf_x0123|].
  exact (uncleared_slots_keep_elements 0 doubling Z.even heap0123 x0123
           wf_x0123).
Defined.

Lemma FilterZeroAlloc_no_allocation_witness :
  wf heap0123 x0123 /\
  ((exists (a' : slice) (h' : heap Z),
      FilterZeroAllocNoGC 0 doubling x0123 Z.even heap0123 =
      Ok (a', h')
      /\ length h' = length heap0123
        /\ s_arr a' = s_arr x0123
          /\ s_off a' = s_off x0123 /\ s_cap a' = s_cap x0123)
   /\ exists (a' : slice) (h' : heap Z),
       FilterZeroAlloc 0 doubling x0123 Z.even heap0123 =
       Ok (a', h')
       /\ length h' = length heap0123
         /\ s_arr a' = s_arr x0123
           /\ s_off a' = s_off x0123 /\ s_cap a' = s_cap x0123).
Proof.
  split; [exact wf_x0123|].
  exact (FilterZeroAlloc_no_allocation 0 doubling Z.even heap0123 x0123
           wf_x0123).
Defined.

Lemma Pop_Push_round_trip_witness :
  wf heap0123 x0123 /\
  0 < len x0123 /\
  (exists (x : Z) (a' : slice),
     Pop x0123 heap0123 = Ok (x, a', heap0123)
     /\ Push 0 doubling a' x heap0123 = Ok (x0123, heap0123)).
Proof.
  assert (0 < len x0123) as H2 by concrete.
  split; [exact wf_x0123|].
  split; [exact H2|].
  exact (Pop_Push_round_trip 0 doubling heap0123 x0123 wf_x0123 H2).
Defined.

Lemma InsertMany_inserts_witness :
  wf heap0123_789 x0123 /\
  in_bounds heap0123_789 elems789 /\
  0 <= 2 <= len x0123 /\
  len x0123 + len elems789 <= Int.max_int /\
  (cap x0123 < len x0123 + len elems789 \/
   s_arr elems789 <> s_arr x0123 /\
   len x0123 - 2 <= len elems789 + 1 /\
   2 + len elems789 + 1 <= cap x0123) /\
  (exists (a' : slice) (h' : heap Z),
     InsertMany 0 x0123 2 elems789 heap0123_789 =
     Ok (a', h')
     /\ view h' a' =
       take (Z.to_nat 2) (view heap0123_789 x0123) ++
       view heap0123_789 elems789 ++
       drop (Z.to_nat 2) (view heap0123_789 x0123)).
Proof.
  assert (0 <= 2 <= len x0123) as H3 by concrete.
  assert (len x0123 + len elems789 <= Int.max_int) as H4 by concrete.
  assert (cap x0123 < len x0123 + len elems789 \/
          s_arr elems789 <> s_arr x0123 /\
          len x0123 - 2 <= len elems789 + 1 /\
          2 + len elems789 + 1 <= cap x0123) as H5 by concrete.
  split; [exact wf_x0123_789|].
  split; [exact in_elems789|].
  split; [exact H3|].
  split; [exact H4|].
  split; [exact H5|].
  exact (InsertMany_inserts 0 heap0123_789 x0123 2 elems789
           wf_x0123_789 in_elems789 H3 H4 H5).
Defined.

Lemma Batches_ok_witness :
  wf heap0123 x0123 /\
  1 <= 3 /\
  len x0123 + 3 - 1 <= Int.max_int /\
  (s_len x0123 <= 4)%nat /\
  (exists bl : list slice,
     Batches 4 x0123 3 heap0123 = Ok (bl, heap0123)
     /\ concat (map (view heap0123) bl) =
       view heap0123 x0123
       /\ Z.of_nat (length bl) = (len x0123 + 3 - 1) `div` 3
         /\ (len x0123 = 0 -> bl = [])
           /\ forall (i : nat) (b : slice),
               bl !! i = Some b
               -> 1 <= len b <= 3
                 /\ ((i + 1 < length bl)%nat -> len b = 3)).
Proof.
  assert (1 <= 3) as H2 by concrete.
  assert (len x0123 + 3 - 1 <= Int.max_int) as H3 by concrete.
  assert ((s_len x0123 <= 4)%nat) as H4 by concrete.
  split; [exact wf_x0123|].
  split; [exact H2|].
  split; [exact H3|].
  split; [exact H4|].
  exact (Batches_ok heap0123 x0123 3 4 wf_x0123 H2 H3 H4).
Defined.

Lemma vacated_slots_cleared_witness :
  wf heap0123 x0123 /\
  ((forall start end_ : Z,
      0 <= start <= end_
      -> end_ <= len x0123
        -> exists (a' : slice) (h' : heap Z),
            Cut 0 x0123 start end_ heap0123 = Ok (a', h')
            /\ forall k : nat,
                len a' <= Z.of_nat k < len x0123
                -> array h' x0123 !! (s_off x0123 + k)%nat =
                  Some 0)
   /\ (forall i : Z,
        0 <= i < len x0123
        -> exists (a' : slice) (h' : heap Z),
            Delete 0 x0123 i heap0123 = Ok (a', h')
            /\ forall k : nat,
                len a' <= Z.of_nat k < len x0123
                -> array h' x0123 !! (s_off x0123 + k)%nat =
                  Some 0)
     /\ forall keep : Z -> bool,
         exists (a' : slice) (h' : heap Z),
           PartB.Filter 0 x0123 keep heap0123 = Ok (a', h')
           /\ forall k : nat,
               len a' <= Z.of_nat k < len x0123
               -> array h' x0123 !! (s_off x0123 + k)%nat = Some 0).
Proof.
  split; [exact wf_x0123|].
  exact (vacated_slots_cleared 0 heap0123 x0123 wf_x0123).
Defined.

